(** * The graph execution engine of [app/engine.py]

    A shallow embedding of [GraphEngine] and of [GraphEngine.run_graph]:
    the Python objects the engine shares with its callers and with the
    nodes live in an explicit store, the engine's own attributes and the
    run record it builds are records, and exceptions are values. *)

From Stdlib Require Import Floats.SpecFloat.
From stdpp Require Import gmap strings list fin_maps.

Open Scope string_scope.
Open Scope list_scope.
Open Scope stdpp_scope.
Open Scope Z_scope.

(** ** Python values and the object store *)

Module Py.

(** References to mutable objects (dictionaries and lists). *)
Definition loc := positive.

(** A value of type [Any] as it can occur in a state: JSON scalars are
    immediate, lists and dictionaries are references into the store, so
    that two dictionaries can hold the very same list. *)
Inductive value :=
| VNone
| VBool (b : bool)
| VInt (n : Z)
| VFloat (f : spec_float)
| VStr (s : string)
| VRef (l : loc).

(** A mutable object: a [Dict[str, Any]] or a list. *)
Inductive obj :=
| ODict (d : gmap string value)
| OList (xs : list value).

Abbreviation dict := (gmap string value).
Abbreviation heap := (gmap loc obj).

(** Allocation picks a reference that is not in use. *)
Definition alloc (h : heap) : loc := fresh (dom h).

(** [bool(v)]: Python truthiness. *)
Definition truthy (h : heap) (v : value) : bool :=
  match v with
  | VNone => false
  | VBool b => b
  | VInt n => negb (n =? 0)%Z
  | VFloat f => match f with S754_zero _ => false | _ => true end
  | VStr s => negb (String.eqb s "")
  | VRef l =>
      match h !! l with
      | Some (ODict d) => negb (bool_decide (dom d = ∅))
      | Some (OList xs) => negb (bool_decide (length xs = 0%nat))
      | None => true
      end
  end.

(** [d.get(k)]: a missing key reads as [None]. *)
Definition get (d : dict) (k : string) : value := default VNone (d !! k).

(** [d.pop(k, None)]: the value removed (or [None]) and the dictionary
    without the key. *)
Definition pop (d : dict) (k : string) : value * dict :=
  (default VNone (d !! k), delete k d).

Definition is_None (v : value) : bool :=
  match v with VNone => true | _ => false end.

End Py.

Import Py.

(** ** app/models.py and the classes of app/engine.py *)

(** [ToolFunc = Callable[[Dict[str, Any]], Dict[str, Any]]]: a node receives
    the reference of the state dictionary and may mutate every object of the
    store; it returns the reference of the dictionary that becomes the state,
    or raises, and the store is then as the node left it. The engine's
    attributes and the record of the run in progress are not objects of the
    store. *)
Inductive tool_result :=
| Returns (s : loc)
| Raises.

Abbreviation ToolFunc := (heap → loc → heap * tool_result).

Record GraphCreateRequest := {
  req_nodes : list string;
  req_edges : gmap string (option string);
  req_start_node : string;
}.

(** [state_snapshot] is the dictionary [dict(state)] builds: a new object
    with the keys and values of the state, to which only the run record
    and its log refer. No node is handed it, so it is kept here as the
    mapping itself; its values are those of the state, and a list or
    dictionary among them is a reference to the object the state refers
    to. *)
Record ExecutionStep := {
  step_number : Z;
  node : string;
  state_snapshot : dict;
}.

Record GraphDefinition := {
  graph_id : string;
  nodes : list string;
  edges : gmap string (option string);
  start_node : string;
}.

Record RunRecord := {
  run_id : string;
  run_graph_id : string;
  log : list ExecutionStep;
  current_state : dict;
}.

(** [RunRecord.__init__] *)
Definition new_RunRecord (rid gid : string) : RunRecord :=
  {| run_id := rid; run_graph_id := gid; log := []; current_state := ∅ |}.

Record GraphEngine := {
  tool_registry : gmap string ToolFunc;
  graphs : gmap string GraphDefinition;
  runs : gmap string RunRecord;
}.

(** [GraphEngine.__init__] *)
Definition new_GraphEngine : GraphEngine :=
  {| tool_registry := ∅; graphs := ∅; runs := ∅ |}.

Definition register_tool (self : GraphEngine) (name : string) (func : ToolFunc)
  : GraphEngine :=
  {| tool_registry := <[name := func]> (tool_registry self);
     graphs := graphs self;
     runs := runs self |}.

(** [create_graph]; [gid] is the identifier [uuid4()] draws. *)
Definition create_graph (self : GraphEngine) (gid : string)
    (request : GraphCreateRequest) : GraphEngine * string :=
  let graph := {| graph_id := gid;
                  nodes := req_nodes request;
                  edges := req_edges request;
                  start_node := req_start_node request |} in
  ({| tool_registry := tool_registry self;
      graphs := <[gid := graph]> (graphs self);
      runs := runs self |}, gid).

Definition get_run (self : GraphEngine) (rid : string) : option RunRecord :=
  runs self !! rid.

(** ** Exceptions *)

Inductive exn :=
| KeyError (gid : string)          (* "Graph ... not found" *)
| ValueError (current_node : value) (* "No tool registered for node ..." *)
| TypeError                         (* unhashable key, or a state that is no dict *)
| NodeError.                        (* raised by the node itself *)

(** ** run_graph *)

(** The local variables of [run_graph] while the loop runs, with the store. *)
Record frame := {
  f_heap : heap;
  f_state : loc;
  f_current_node : value;
  f_step_number : Z;
  f_run_record : RunRecord;
}.

(** [self.tool_registry.get(current_node)] for a key that need not be a
    string: lists and dictionaries are unhashable, everything else that is
    not a registered name gives [None]. *)
Inductive registry_get_result :=
| Found (n : string) (tool : ToolFunc)
| Missing
| Unhashable.

Definition registry_get (reg : gmap string ToolFunc) (k : value)
  : registry_get_result :=
  match k with
  | VStr n => match reg !! n with Some t => Found n t | None => Missing end
  | VRef _ => Unhashable
  | _ => Missing
  end.

(** [graph.edges.get(current_node)] *)
Definition edges_get (graph : GraphDefinition) (n : string) : value :=
  match edges graph !! n with
  | Some (Some m) => VStr m
  | _ => VNone
  end.

(** "Decide next node" (the [if state.get("_stop")] statement): the store
    after it and the new [current_node]. [s] refers to the dictionary [d]. *)
Definition decide_next (graph : GraphDefinition) (h : heap) (s : loc)
    (d : dict) (n : string) : heap * value :=
  if truthy h (get d "_stop") then (h, VNone)
  else
    let '(next_from_state, d') := pop d "_next_node" in
    let h' := <[s := ODict d']> h in
    if negb (is_None next_from_state) then (h', next_from_state)
    else (h', edges_get graph n).

(** What one execution of the loop body gives: the next frame, or the
    exception with the store as the body left it. *)
Inductive body_result :=
| Next (f : frame)
| Throw (e : exn) (h : heap).

Definition loop_body (reg : gmap string ToolFunc) (graph : GraphDefinition)
    (f : frame) : body_result :=
  match registry_get reg (f_current_node f) with
  | Unhashable => Throw TypeError (f_heap f)
  | Missing => Throw (ValueError (f_current_node f)) (f_heap f)
  | Found n tool =>
      match tool (f_heap f) (f_state f) with
      | (h1, Raises) => Throw NodeError h1
      | (h1, Returns s1) =>
          match h1 !! s1 with
          | Some (ODict d1) =>
              let snapshot := d1 in
              let run_record :=
                {| run_id := run_id (f_run_record f);
                   run_graph_id := run_graph_id (f_run_record f);
                   log := log (f_run_record f) ++
                          [ {| step_number := f_step_number f;
                               node := n;
                               state_snapshot := snapshot |} ];
                   current_state := snapshot |} in
              let '(h2, next) := decide_next graph h1 s1 d1 n in
              Next {| f_heap := h2;
                      f_state := s1;
                      f_current_node := next;
                      f_step_number := f_step_number f + 1;
                      f_run_record := run_record |}
          | _ => Throw TypeError h1
          end
      end
  end.

(** [current_node is not None and step_number < max_steps] *)
Definition loop_cond (max_steps : Z) (f : frame) : bool :=
  negb (is_None (f_current_node f)) && (f_step_number f <? max_steps)%Z.

Inductive loop_result :=
| Done (f : frame)
| Raised (e : exn) (h : heap)
| OutOfFuel.

(** The [while] loop, unrolled at most [fuel] times. *)
Fixpoint while_loop (reg : gmap string ToolFunc) (graph : GraphDefinition)
    (max_steps : Z) (fuel : nat) (f : frame) : loop_result :=
  if loop_cond max_steps f then
    match fuel with
    | O => OutOfFuel
    | S fuel' =>
        match loop_body reg graph f with
        | Next f' => while_loop reg graph max_steps fuel' f'
        | Throw e h => Raised e h
        end
    end
  else Done f.

(** The frame at loop entry: [s] is the fresh copy [dict(initial_state)]. *)
Definition entry_frame (graph : GraphDefinition) (rid gid : string)
    (h : heap) (d0 : dict) : frame :=
  let s := alloc h in
  {| f_heap := <[s := ODict d0]> h;
     f_state := s;
     f_current_node := VStr (start_node graph);
     f_step_number := 0;
     f_run_record := new_RunRecord rid gid |}.

(** [self.runs[run_id] = run_record] *)
Definition persisted (self : GraphEngine) (rid : string) (r : RunRecord)
  : GraphEngine :=
  {| tool_registry := tool_registry self;
     graphs := graphs self;
     runs := <[rid := r]> (runs self) |}.

Inductive outcome :=
| Return (r : RunRecord)
| Raise (e : exn)
| Diverge.

(** [run_graph(graph_id, initial_state, max_steps)] on the engine [self] and
    the store [h]; [rid] is the identifier [uuid4()] draws for the run and
    [initial_state] the reference of the caller's mapping. The loop runs at
    most [max_steps] times, which is the fuel it is given. *)
Definition run_graph (self : GraphEngine) (h : heap) (rid : string)
    (gid : string) (initial_state : loc) (max_steps : Z)
  : GraphEngine * heap * outcome :=
  match graphs self !! gid with
  | None => (self, h, Raise (KeyError gid))
  | Some graph =>
      match h !! initial_state with
      | Some (ODict d0) =>
          match while_loop (tool_registry self) graph max_steps
                  (Z.to_nat max_steps) (entry_frame graph rid gid h d0) with
          | Done f =>
              (persisted self rid (f_run_record f), f_heap f,
               Return (f_run_record f))
          | Raised e h' => (self, h', Raise e)
          | OutOfFuel => (self, h, Diverge)
          end
      | _ => (self, h, Raise TypeError)
      end
  end.

(** ** Runs of the loop, step by step *)

Section Iterations.

Context (reg : gmap string ToolFunc) (graph : GraphDefinition)
        (max_steps : Z).

(** [reaches k f f']: from frame [f] the loop executes its body [k]
    times, each time with its condition true and without an exception,
    and is then in frame [f']. Every execution of the body is one node
    invocation. *)
Inductive reaches : nat → frame → frame → Prop :=
| reaches_O f : reaches 0 f f
| reaches_S k f f1 f2 :
    loop_cond max_steps f = true →
    loop_body reg graph f = Next f1 →
    reaches k f1 f2 →
    reaches (S k) f f2.

End Iterations.

(** The step numbers of a log are [0, 1, ..., k-1] with [k] at most
    [ceiling]. *)
Definition contiguous_upto (ceiling : Z) (r : RunRecord) : Prop :=
  ∃ k : nat,
    step_number <$> log r = Z.of_nat <$> seq 0 k ∧ Z.of_nat k ≤ ceiling.

(** A node that, where the mapping at [l0] exists, writes it only when it
    is the state it was handed, and returns it only then. Nothing is asked
    about stores without [l0], in which a node that allocates may come to
    use that reference. *)
Definition tool_spares (l0 : loc) (t : ToolFunc) : Prop :=
  ∀ h s, is_Some (h !! l0) → s ≠ l0 →
         (t h s).1 !! l0 = h !! l0 ∧ (t h s).2 ≠ Returns l0.

(** A node that on every invocation sets ["_next_node"] to its own name
    and never sets the stop flag: handed a state that is not flagged as
    stopped, it returns a state that asks for [name] and is not flagged
    either. *)
Definition self_looping (name : string) (t : ToolFunc) : Prop :=
  ∀ h s d, h !! s = Some (ODict d) →
    truthy h (get d "_stop") = false →
    ∃ h' s' d',
      t h s = (h', Returns s') ∧ h' !! s' = Some (ODict d') ∧
      d' !! "_next_node" = Some (VStr name) ∧
      truthy h' (get d' "_stop") = false.

(** A node that does nothing but set ["_next_node"] to its own name, in
    place: it never writes the stop flag. *)
Definition only_sets_next (name : string) (t : ToolFunc) : Prop :=
  ∀ h s d, h !! s = Some (ODict d) →
    t h s = (<[s := ODict (<["_next_node" := VStr name]> d)]> h, Returns s).

(** The self-looping example as worded, for every initial state: with
    ceiling 100 such a node gives exactly 100 log entries and a final
    state whose stop flag is unset. *)
Definition self_loop_claim : Prop :=
  ∀ self h rid gid init graph d0 name t,
    graphs self !! gid = Some graph →
    h !! init = Some (ODict d0) →
    start_node graph = name →
    tool_registry self !! name = Some t →
    only_sets_next name t →
    ∃ self' h' r,
      run_graph self h rid gid init 100 = (self', h', Return r) ∧
      length (log r) = 100%nat ∧
      truthy h' (get (current_state r) "_stop") = false.

(** The frames of a run that keeps visiting the node [name]: neither the
    live state nor the last recorded state is flagged as stopped. *)
Definition spinning (name : string) (f : frame) : Prop :=
  f_current_node f = VStr name ∧
  (∃ d, f_heap f !! f_state f = Some (ODict d) ∧
        truthy (f_heap f) (get d "_stop") = false) ∧
  truthy (f_heap f) (get (current_state (f_run_record f)) "_stop") = false.

(** ** The transition, as worded *)

(** The priority order in the specification's words: stop, else the
    dynamic key when present (removed, its value is the next node), else
    the static edge. *)
Definition transition_spec (graph : GraphDefinition) (h : heap) (s : loc)
    (d : dict) (n : string) : heap * value :=
  if truthy h (get d "_stop") then (h, VNone)
  else
    match d !! "_next_node" with
    | Some v => (<[s := ODict (delete "_next_node" d)]> h, v)
    | None => (h, edges_get graph n)
    end.

(** ** What a snapshot shows *)

#[local] Set Warnings "-register-all".

(** The content of a value with the objects it refers to read from the
    store, down to [depth] references: what a reader of a snapshot (a
    serialiser, a test) sees. *)
Inductive tree :=
| TVal (v : value)
| TList (ts : list tree)
| TDict (kvs : list (string * tree))
| TDangling
| TDeeper.

Fixpoint render (depth : nat) (h : heap) (v : value) : tree :=
  match v with
  | VRef l =>
      match depth with
      | O => TDeeper
      | S depth' =>
          match h !! l with
          | Some (OList xs) => TList (render depth' h <$> xs)
          | Some (ODict d) =>
              TDict (prod_map id (render depth' h) <$> map_to_list d)
          | None => TDangling
          end
      end
  | _ => TVal v
  end.

Definition render_dict (depth : nat) (h : heap) (d : dict)
  : list (string * tree) :=
  prod_map id (render depth h) <$> map_to_list d.

(** Snapshots as deep copies: whatever one more step of a run does, every
    step already recorded shows what it showed before. *)
Definition snapshots_deep : Prop :=
  ∀ reg graph max_steps f f' e depth,
    reaches reg graph max_steps 1 f f' →
    e ∈ log (f_run_record f) →
    render_dict depth (f_heap f') (state_snapshot e)
    = render_dict depth (f_heap f) (state_snapshot e).

(** ** Example nodes and graphs *)

Module Examples.

(** In-place update of the dictionary at [s]; raises when there is none. *)
Definition on_state (h : heap) (s : loc) (k : dict → heap * dict)
  : heap * tool_result :=
  match h !! s with
  | Some (ODict d) => let '(h', d') := k d in (<[s := ODict d']> h', Returns s)
  | _ => (h, Raises)
  end.

(** Modelled from the spec: the node of the single-node "loop" example
    (Example B), which increments a counter [c], asks for "loop" again
    while [c < 3] and sets the stop flag at [c == 3]:
<<
    state["c"] = state.get("c", 0) + 1
    if state["c"] < 3: state["_next_node"] = "loop"
    elif state["c"] == 3: state["_stop"] = True
    return state
>> *)
Definition loop_tool : ToolFunc := λ h s,
  match h !! s with
  | Some (ODict d) =>
      match d !! "c" with
      | None | Some (VInt _) =>
          let c := match d !! "c" with Some (VInt n) => n + 1 | _ => 1 end in
          let d := <["c" := VInt c]> d in
          (<[s := ODict
                   (if (c <? 3)%Z then <["_next_node" := VStr "loop"]> d
                    else if (c =? 3)%Z then <["_stop" := VBool true]> d
                    else d)]> h,
           Returns s)
      | Some _ => (h, Raises)
      end
  | _ => (h, Raises)
  end.

Definition loop_request : GraphCreateRequest :=
  {| req_nodes := ["loop"];
     req_edges := {["loop" := None]};
     req_start_node := "loop" |}.

Definition loop_engine : GraphEngine :=
  (create_graph (register_tool new_GraphEngine "loop" loop_tool)
     "graph-1" loop_request).1.

(** A node that always asks for itself again:
<<
    state["_next_node"] = "spin"
    return state
>> *)
Definition spin_tool : ToolFunc := λ h s,
  on_state h s (λ d, (h, <["_next_node" := VStr "spin"]> d)).

Definition spin_request : GraphCreateRequest :=
  {| req_nodes := ["spin"];
     req_edges := {["spin" := None]};
     req_start_node := "spin" |}.

Definition spin_engine : GraphEngine :=
  (create_graph (register_tool new_GraphEngine "spin" spin_tool)
     "graph-1" spin_request).1.

(** Two nodes sharing a list:
<<
    def A(state): state["xs"] = [1]; return state
    def B(state): state["xs"].append(2); return state
>> *)
Definition A_tool : ToolFunc := λ h s,
  on_state h s (λ d,
    let l := alloc h in
    (<[l := OList [VInt 1]]> h, <["xs" := VRef l]> d)).

Definition B_tool : ToolFunc := λ h s,
  match h !! s with
  | Some (ODict d) =>
      match d !! "xs" with
      | Some (VRef l) =>
          match h !! l with
          | Some (OList xs) => (<[l := OList (xs ++ [VInt 2])]> h, Returns s)
          | _ => (h, Raises)
          end
      | _ => (h, Raises)
      end
  | _ => (h, Raises)
  end.

(** A node that leaves the state as it is. *)
Definition pass_tool : ToolFunc := λ h s, (h, Returns s).

(** A node that sets both control keys:
<<
    state["_next_node"] = "A"; state["_stop"] = True; return state
>> *)
Definition halt_tool : ToolFunc := λ h s,
  on_state h s (λ d,
    (h, <["_stop" := VBool true]> (<["_next_node" := VStr "A"]> d))).

Definition AB_request : GraphCreateRequest :=
  {| req_nodes := ["A"; "B"];
     req_edges := {["A" := Some "B"; "B" := None]};
     req_start_node := "A" |}.

Definition AB_graph : GraphDefinition :=
  {| graph_id := "graph-1"; nodes := ["A"; "B"];
     edges := {["A" := Some "B"; "B" := None]}; start_node := "A" |}.

Definition AB_engine (a b : ToolFunc) : GraphEngine :=
  (create_graph
     (register_tool (register_tool new_GraphEngine "A" a) "B" b)
     "graph-1" AB_request).1.

(** The two-node graph with no implementation registered for "B". *)
Definition A_only_engine : GraphEngine :=
  (create_graph (register_tool new_GraphEngine "A" pass_tool)
     "graph-1" AB_request).1.

(** The caller's store: the mapping [{}] at reference 1. *)
Definition empty_state : heap := {[ 1%positive := ODict ∅ ]}.

(** The caller's store with [{"_next_node": None}] at reference 1. *)
Definition null_next_state : heap :=
  {[ 1%positive := ODict {["_next_node" := VNone]} ]}.

(** The frame after the first execution of the loop body. *)
Definition first_step (self : GraphEngine) (graph : GraphDefinition)
    (h : heap) (d0 : dict) : frame :=
  let f := entry_frame graph "run-1" "graph-1" h d0 in
  match loop_body (tool_registry self) graph f with
  | Next f' => f'
  | Throw _ _ => f
  end.

Definition loop_run :=
  run_graph loop_engine empty_state "run-1" "graph-1" 1%positive 10.

(** The run of the two nodes sharing a list, after "A" and after "B". *)
Definition shared_list_engine : GraphEngine := AB_engine A_tool B_tool.

Definition after_A : frame :=
  first_step shared_list_engine AB_graph empty_state ∅.

Definition after_B : frame :=
  match loop_body (tool_registry shared_list_engine) AB_graph after_A with
  | Next f' => f'
  | Throw _ _ => after_A
  end.

(** The run of two nodes that leave [{"_next_node": None}] as it is. *)
Definition null_next_run :=
  run_graph (AB_engine pass_tool pass_tool) null_next_state
    "run-1" "graph-1" 1%positive 100.

(** The caller's store with [{"c": 0}] at reference 1. *)
Definition zero_state : heap := {[ 1%positive := ODict {["c" := VInt 0]} ]}.

(** The run that stops for want of an implementation of "B". *)
Definition before_B : frame :=
  first_step A_only_engine AB_graph empty_state ∅.

End Examples.

(** ** What the log of a run records *)

(** The step [e] leads to a step at node [n']: the snapshot of [e] names
    [n'] in ["_next_node"], or it holds no name there (key absent, or
    [None]) and the static edge of [e]'s node leads to [n']. *)
Definition leads_to (graph : GraphDefinition) (e : ExecutionStep)
    (n' : string) : Prop :=
  match state_snapshot e !! "_next_node" with
  | Some v =>
      if is_None v then edges graph !! node e = Some (Some n')
      else v = VStr n'
  | None => edges graph !! node e = Some (Some n')
  end.

Definition is_ref (v : value) : bool :=
  match v with VRef _ => true | _ => false end.

(** ** Runs along the static edges *)

(** A state without control keys: no ["_next_node"], no truthy ["_stop"]. *)
Definition no_control (h : heap) (d : dict) : Prop :=
  d !! "_next_node" = None ∧ truthy h (get d "_stop") = false.

(** A node that returns a state without control keys when it is handed
    one. *)
Definition control_free (t : ToolFunc) : Prop :=
  ∀ h s d, h !! s = Some (ODict d) → no_control h d →
    ∃ h' s' d',
      t h s = (h', Returns s') ∧ h' !! s' = Some (ODict d') ∧
      no_control h' d'.

(** [path] follows the static edges of the graph to a node without
    successor. *)
Fixpoint static_path (graph : GraphDefinition) (path : list string) : Prop :=
  match path with
  | [] => True
  | n :: rest =>
      match rest with
      | [] => edges_get graph n = VNone
      | n' :: _ => edges graph !! n = Some (Some n') ∧ static_path graph rest
      end
  end.

(** The frames of a run that follows [path]: the current node is the head
    of what is left of the path, and the live state has no control keys. *)
Definition on_path (path : list string) (f : frame) : Prop :=
  f_current_node f = match path with n :: _ => VStr n | [] => VNone end ∧
  ∃ d, f_heap f !! f_state f = Some (ODict d) ∧ no_control (f_heap f) d.

(** ** app/main.py *)

(** What an endpoint gives: the response model, an [HTTPException], or
    [Passed e] for an exception that neither [except] clause of the
    endpoint catches. [DetailOf e] is [str(e)]. *)
Inductive detail :=
| Detail (s : string)
| DetailOf (e : exn).

Inductive http (A : Type) :=
| Ok200 (body : A)
| HTTPException (status_code : Z) (d : detail)
| Passed (e : exn)
| NoReply.

Arguments Ok200 {A} body.
Arguments HTTPException {A} status_code d.
Arguments Passed {A} e.
Arguments NoReply {A}.

Record GraphRunRequest := {
  rq_graph_id : string;
  rq_initial_state : loc;
}.

Record GraphRunResponse := {
  rs_run_id : string;
  rs_final_state : dict;
  rs_log : list ExecutionStep;
}.

Record GraphStateResponse := {
  st_run_id : string;
  st_current_state : dict;
  st_log : list ExecutionStep;
}.

(** The class of the exception a node raises, which the engine passes on
    without looking at it and the clauses of the endpoint tell apart: a
    [KeyError], a [ValueError] (with its [str(e)]), or any other class. *)
Inductive node_exn_class :=
| NodeKeyError
| NodeValueError (str_e : string)
| NodeOtherError.

(** [POST /graph/run]: [engine.run_graph(request.graph_id,
    request.initial_state)], with the default ceiling of 100. [cls] is the
    class of the exception of the node that raised, when one did:
    [except KeyError] and [except ValueError] catch a node's exception of
    that class as they catch the engine's own. *)
Definition post_graph_run (engine : GraphEngine) (h : heap) (rid : string)
    (cls : node_exn_class) (request : GraphRunRequest)
  : GraphEngine * heap * http GraphRunResponse :=
  let '(engine', h', o) :=
    run_graph engine h rid (rq_graph_id request) (rq_initial_state request)
      100 in
  (engine', h',
   match o with
   | Return run_record =>
       Ok200 {| rs_run_id := run_id run_record;
                rs_final_state := current_state run_record;
                rs_log := log run_record |}
   | Raise (KeyError _) => HTTPException 404 (Detail "Graph not found.")
   | Raise (ValueError v) => HTTPException 400 (DetailOf (ValueError v))
   | Raise TypeError => Passed TypeError
   | Raise NodeError =>
       match cls with
       | NodeKeyError => HTTPException 404 (Detail "Graph not found.")
       | NodeValueError str_e => HTTPException 400 (Detail str_e)
       | NodeOtherError => Passed NodeError
       end
   | Diverge => NoReply
   end).

(** [GET /graph/state/{run_id}] *)
Definition get_state (engine : GraphEngine) (rid : string)
  : http GraphStateResponse :=
  match get_run engine rid with
  | None => HTTPException 404 (Detail "Run not found.")
  | Some run_record =>
      Ok200 {| st_run_id := rid;
               st_current_state := current_state run_record;
               st_log := log run_record |}
  end.

(** ** app/workflows.py: detect_issues_tool *)

(** [pat in s] for two [str]; a [str] is held as its UTF-8 bytes, in which
    a pattern occurs exactly where it occurs in the characters. *)
Fixpoint is_substring (pat s : string) : bool :=
  String.prefix pat s ||
  match s with
  | EmptyString => false
  | String _ s' => is_substring pat s'
  end.

(** [pat in v] for a [str] [pat]: substring of a [str], element of a list,
    key of a dictionary; [None] is the [TypeError] of a value that is no
    container. *)
Definition py_in (h : heap) (pat : string) (v : value) : option bool :=
  match v with
  | VStr s => Some (is_substring pat s)
  | VRef l =>
      match h !! l with
      | Some (OList xs) =>
          Some (existsb (λ x, match x with
                              | VStr s => String.eqb pat s
                              | _ => false
                              end) xs)
      | Some (ODict d) => Some (bool_decide (is_Some (d !! pat)))
      | None => None
      end
  | _ => None
  end.

(** The messages [detect_issues_tool] appends, in its order, for the
    outcomes of its four tests. *)
Definition issues_for (has_print has_todo has_global has_except : bool)
  : list string :=
  (if has_print
   then ["Uses print() statements; consider logging instead."] else []) ++
  (if has_todo
   then ["Contains TODO comments; consider resolving them."] else []) ++
  (if has_global
   then ["Uses global variables; this can reduce code clarity."] else []) ++
  (if has_except
   then ["Catches broad exceptions; consider catching specific ones."]
   else []).

(** [detect_issues_tool]: [issues] is a new list object. *)
Definition detect_issues_tool : ToolFunc := λ h s,
  match h !! s with
  | Some (ODict d) =>
      let code := default (VStr "") (d !! "code") in
      match py_in h "print(" code, py_in h "TODO" code,
            py_in h "global " code, py_in h "except:" code,
            py_in h "except Exception:" code with
      | Some p, Some t, Some g, Some e1, Some e2 =>
          let issues := issues_for p t g (e1 || e2) in
          let l := alloc h in
          (<[s := ODict (<["issue_count" := VInt (Z.of_nat (length issues))]>
                           (<["issues" := VRef l]> d))]>
             (<[l := OList (VStr <$> issues)]> h),
           Returns s)
      | _, _, _, _, _ => (h, Raises)
      end
  | _ => (h, Raises)
  end.

(** ** More example nodes *)

Module MoreExamples.

(** A node that raises. *)
Definition boom_tool : ToolFunc := λ h s, (h, Raises).

(** A node that asks for a node nobody registered:
<<
    state["_next_node"] = "ghost"; return state
>> *)
Definition ghost_tool : ToolFunc := λ h s,
  Examples.on_state h s (λ d, (h, <["_next_node" := VStr "ghost"]> d)).

(** The caller's store with [{"code": "print(1)  # TODO"}] at reference 1. *)
Definition code_state : heap :=
  {[ 1%positive := ODict {["code" := VStr "print(1)  # TODO"]} ]}.

Definition pass_engine : GraphEngine :=
  Examples.AB_engine Examples.pass_tool Examples.pass_tool.

Definition pass_run (max_steps : Z) :=
  run_graph pass_engine Examples.empty_state "run-1" "graph-1" 1%positive
    max_steps.

Definition boom_engine : GraphEngine :=
  Examples.AB_engine Examples.pass_tool boom_tool.

Definition ghost_engine : GraphEngine :=
  Examples.AB_engine ghost_tool Examples.pass_tool.

(** A graph of the single node "detect_issues", and its run on a state with
    code. *)
Definition detect_engine : GraphEngine :=
  (create_graph
     (register_tool new_GraphEngine "detect_issues" detect_issues_tool)
     "graph-1"
     {| req_nodes := ["detect_issues"];
        req_edges := {["detect_issues" := None]};
        req_start_node := "detect_issues" |}).1.

Definition detect_run :=
  run_graph detect_engine code_state "run-1" "graph-1" 1%positive 100.

(** The caller's store with [{"_stop": True}] at reference 1. *)
Definition stopped_state : heap :=
  {[ 1%positive := ODict {["_stop" := VBool true]} ]}.

Definition stopped_spin_run :=
  run_graph Examples.spin_engine stopped_state "run-1" "graph-1" 1%positive
    100.

(** A node that returns an object it finds in the state:
<<
    return state["me"]
>> *)
Definition me_tool : ToolFunc := λ h s,
  match h !! s with
  | Some (ODict d) =>
      match d !! "me" with
      | Some (VRef l) => (h, Returns l)
      | Some _ => (h, Returns s)
      | None => (h, Raises)
      end
  | _ => (h, Raises)
  end.

(** The caller's mapping [d = {"_next_node": "B"}] with [d["me"] = d], at
    reference 1. *)
Definition me_state : heap :=
  {[ 1%positive :=
       ODict {["me" := VRef 1%positive; "_next_node" := VStr "B"]} ]}.

Definition me_run :=
  run_graph (Examples.AB_engine me_tool Examples.pass_tool) me_state
    "run-1" "graph-1" 1%positive 100.

(** The first frame of a run of [self] on the two-node graph. *)
Definition entry (h : heap) (d0 : dict) : frame :=
  entry_frame Examples.AB_graph "run-1" "graph-1" h d0.

End MoreExamples.

(** * Properties *)

(** ** The store *)

Lemma alloc_fresh (h : heap) : h !! alloc h = None.
Proof. unfold alloc. apply (not_elem_of_dom (D:=gset loc)), is_fresh. Qed.

Lemma alloc_ne (h : heap) (l : loc) : is_Some (h !! l) → alloc h ≠ l.
Proof. intros [o Ho] <-. by rewrite alloc_fresh in Ho. Qed.

(** ** One execution of the loop body *)

Section Body.

Context (reg : gmap string ToolFunc) (graph : GraphDefinition).

(** A body that does not raise looked the node up, invoked it on the
    live state, got a dictionary back, logged it and chose a successor. *)
Lemma loop_body_Next f f' :
  loop_body reg graph f = Next f' →
  ∃ n tool h1 s1 d1,
    f_current_node f = VStr n ∧ reg !! n = Some tool ∧
    tool (f_heap f) (f_state f) = (h1, Returns s1) ∧
    h1 !! s1 = Some (ODict d1) ∧
    f_state f' = s1 ∧
    (f_heap f', f_current_node f') = decide_next graph h1 s1 d1 n ∧
    f_step_number f' = f_step_number f + 1 ∧
    f_run_record f' =
      {| run_id := run_id (f_run_record f);
         run_graph_id := run_graph_id (f_run_record f);
         log := log (f_run_record f) ++
                [ {| step_number := f_step_number f; node := n;
                     state_snapshot := d1 |} ];
         current_state := d1 |}.
Proof.
  unfold loop_body, registry_get. intros H.
  destruct (f_current_node f) as [| | | |n|]; try discriminate.
  destruct (reg !! n) as [tool|] eqn:Hreg; [|discriminate].
  destruct (tool (f_heap f) (f_state f)) as [h1 [s1|]] eqn:Htool;
    [|discriminate].
  destruct (h1 !! s1) as [[d1|]|] eqn:Hs1; try discriminate.
  destruct (decide_next graph h1 s1 d1 n) as [h2 next] eqn:Hdec.
  injection H as <-. by exists n, tool, h1, s1, d1.
Qed.

(** The converse: the body on a frame whose node is registered and
    returns a dictionary. *)
Lemma loop_body_run f n tool h1 s1 d1 :
  registry_get reg (f_current_node f) = Found n tool →
  tool (f_heap f) (f_state f) = (h1, Returns s1) →
  h1 !! s1 = Some (ODict d1) →
  loop_body reg graph f =
    Next {| f_heap := (decide_next graph h1 s1 d1 n).1;
            f_state := s1;
            f_current_node := (decide_next graph h1 s1 d1 n).2;
            f_step_number := f_step_number f + 1;
            f_run_record :=
              {| run_id := run_id (f_run_record f);
                 run_graph_id := run_graph_id (f_run_record f);
                 log := log (f_run_record f) ++
                        [ {| step_number := f_step_number f; node := n;
                             state_snapshot := d1 |} ];
                 current_state := d1 |} |}.
Proof.
  intros Hreg Htool Hs1. unfold loop_body.
  rewrite Hreg, Htool, Hs1. by destruct (decide_next graph h1 s1 d1 n).
Qed.

Lemma registry_get_Found k n tool :
  registry_get reg k = Found n tool → k = VStr n ∧ reg !! n = Some tool.
Proof.
  destruct k as [| | | |m|]; simpl; try discriminate.
  destruct (reg !! m) eqn:E; [|discriminate]. by intros [= <- <-].
Qed.

End Body.

(** ** The loop *)

Section Loop.

Context (reg : gmap string ToolFunc) (graph : GraphDefinition)
        (max_steps : Z).

#[local] Abbreviation reach := (reaches reg graph max_steps).
#[local] Abbreviation loop := (while_loop reg graph max_steps).
#[local] Abbreviation body := (loop_body reg graph).
#[local] Abbreviation cond := (loop_cond max_steps).

Lemma loop_cond_true f :
  cond f = true ↔ f_current_node f ≠ VNone ∧ f_step_number f < max_steps.
Proof.
  unfold loop_cond. rewrite andb_true_iff, Z.ltb_lt.
  destruct (f_current_node f); simpl; intuition congruence.
Qed.

Lemma reaches_snoc k f f1 f2 :
  reach k f f1 → cond f1 = true → body f1 = Next f2 →
  reach (S k) f f2.
Proof.
  induction 1 as [f|k f fa fb Hc Hb _ IH]; intros Hc' Hb'.
  - econstructor; [done..|constructor].
  - econstructor; [done..|]. by apply IH.
Qed.

Lemma reaches_trans j k f f1 f2 :
  reach j f f1 → reach k f1 f2 → reach (j + k) f f2.
Proof.
  induction 1; intros; simpl; [done|]. econstructor; eauto.
Qed.

(** The loop passes through every frame it reach. *)
Lemma while_loop_reaches k fuel f f' :
  reach k f f' → loop (k + fuel) f = loop fuel f'.
Proof.
  induction 1 as [f|k f fa fb Hc Hb _ IH]; [done|].
  simpl. by rewrite Hc, Hb.
Qed.

(** A loop that ends normally ran its body some [k ≤ fuel] times and
    stopped on a false condition. *)
Lemma while_loop_Done fuel f f' :
  loop fuel f = Done f' →
  ∃ k, (k ≤ fuel)%nat ∧ reach k f f' ∧ cond f' = false.
Proof.
  revert f. induction fuel as [|fuel IH]; intros f; simpl.
  - destruct (cond f) eqn:Hc; [discriminate|].
    intros [= <-]. exists 0%nat. split_and!; [lia|constructor|done].
  - destruct (cond f) eqn:Hc.
    + destruct (body f) as [f1|] eqn:Hb; [|discriminate].
      intros (k & Hk & Hr & Hc')%IH. exists (S k).
      split_and!; [lia| |done]. econstructor; eauto.
    + intros [= <-]. exists 0%nat. split_and!; [lia|constructor|done].
Qed.

Lemma reaches_step_number k f f' :
  reach k f f' → f_step_number f' = f_step_number f + Z.of_nat k.
Proof.
  induction 1 as [f|k f fa fb Hc Hb _ IH]; [lia|].
  apply loop_body_Next in Hb as (?&?&?&?&?&?&?&?&?&?&?&Hn&?). lia.
Qed.

(** The fuel [run_graph] gives the loop is enough. *)
Lemma while_loop_fuel fuel f :
  (Z.to_nat (max_steps - f_step_number f) ≤ fuel)%nat →
  loop fuel f ≠ OutOfFuel.
Proof.
  revert f. induction fuel as [|fuel IH]; intros f Hfuel; simpl.
  - destruct (cond f) eqn:Hc; [|done].
    apply loop_cond_true in Hc. lia.
  - destruct (cond f) eqn:Hc; [|done].
    destruct (body f) as [f1|] eqn:Hb; [|done].
    apply IH. apply loop_body_Next in Hb as (?&?&?&?&?&?&?&?&?&?&?&Hn&?).
    apply loop_cond_true in Hc. lia.
Qed.

(** Every execution of the body appends one entry, numbered with the
    step counter, and leaves the entries before it as they are. *)
Lemma reaches_log k f f' :
  reach k f f' →
  ∃ es, log (f_run_record f') = log (f_run_record f) ++ es ∧
        length es = k ∧
        step_number <$> es =
          (λ i, f_step_number f + Z.of_nat i) <$> seq 0 k.
Proof.
  induction 1 as [f|k f fa fb Hc Hb _ (es & Hlog & Hlen & Hnum)].
  - exists []. by rewrite app_nil_r.
  - apply loop_body_Next in Hb
      as (n&?&?&?&d1&?&?&?&?&?&?&Hn&Hrec).
    exists ({| step_number := f_step_number f; node := n;
               state_snapshot := d1 |} :: es).
    rewrite Hlog, Hrec. simpl. rewrite <- app_assoc. split_and!;
      [done|by rewrite Hlen|].
    change (list_fmap ExecutionStep Z step_number es)
      with (step_number <$> es).
    rewrite Hnum, Z.add_0_r. f_equal.
    change (list_fmap nat Z ?g (seq 1 k)) with (g <$> seq 1 k).
    rewrite <- fmap_S_seq, <- list_fmap_compose.
    apply list_fmap_ext. intros _ i _. simpl. lia.
Qed.

Lemma reaches_ids k f f' :
  reach k f f' →
  run_id (f_run_record f') = run_id (f_run_record f) ∧
  run_graph_id (f_run_record f') = run_graph_id (f_run_record f).
Proof.
  induction 1 as [f|k f fa fb Hc Hb _ [IH1 IH2]]; [done|].
  apply loop_body_Next in Hb as (?&?&?&?&?&?&?&?&?&?&?&?&Hrec).
  rewrite IH1, IH2, Hrec. done.
Qed.

End Loop.

Section LoopExit.

Context (reg : gmap string ToolFunc) (graph : GraphDefinition)
        (max_steps : Z).

#[local] Abbreviation reach := (reaches reg graph max_steps).
#[local] Abbreviation loop := (while_loop reg graph max_steps).
#[local] Abbreviation body := (loop_body reg graph).
#[local] Abbreviation cond := (loop_cond max_steps).

Lemma while_loop_cond_false fuel f :
  cond f = false → loop fuel f = Done f.
Proof. intros Hc. destruct fuel; simpl; by rewrite Hc. Qed.

(** The body never runs past the ceiling. *)
Lemma reaches_bound k f f' :
  reach k f f' → k = 0%nat ∨ f_step_number f' ≤ max_steps.
Proof.
  induction 1 as [f|k f fa fb Hc Hb Hr IH]; [by left|right].
  apply loop_cond_true in Hc as [_ Hc].
  apply loop_body_Next in Hb as (?&?&?&?&?&?&?&?&?&?&?&Hn&?).
  destruct IH as [->|IH]; [|done]. inversion Hr; subst. lia.
Qed.

Lemma while_loop_reaches_Done k f f' :
  f_step_number f = 0 → reach k f f' → cond f' = false →
  loop (Z.to_nat max_steps) f = Done f'.
Proof.
  intros H0 Hr Hc.
  assert (k ≤ Z.to_nat max_steps)%nat as Hk.
  { pose proof (reaches_step_number _ _ _ _ _ _ Hr).
    destruct (reaches_bound _ _ _ Hr); lia. }
  replace (Z.to_nat max_steps) with (k + (Z.to_nat max_steps - k))%nat
    by lia.
  rewrite (while_loop_reaches _ _ _ _ _ _ _ Hr).
  by apply while_loop_cond_false.
Qed.

Lemma while_loop_reaches_Throw k f f' e h' :
  f_step_number f = 0 → reach k f f' → cond f' = true →
  body f' = Throw e h' →
  loop (Z.to_nat max_steps) f = Raised e h'.
Proof.
  intros H0 Hr Hc Hb.
  pose proof (reaches_step_number _ _ _ _ _ _ Hr).
  pose proof (proj1 (loop_cond_true _ _) Hc) as [_ ?].
  replace (Z.to_nat max_steps)
    with (k + S (Z.to_nat max_steps - k - 1))%nat by lia.
  rewrite (while_loop_reaches _ _ _ _ _ _ _ Hr). simpl.
  by rewrite Hc, Hb.
Qed.

Lemma while_loop_reaches_Next k f f1 f2 :
  f_step_number f = 0 → reach k f f1 → cond f1 = true →
  body f1 = Next f2 →
  ∃ fuel, loop (Z.to_nat max_steps) f = loop fuel f2.
Proof.
  intros H0 Hr Hc Hb.
  pose proof (reaches_step_number _ _ _ _ _ _ Hr).
  pose proof (proj1 (loop_cond_true _ _) Hc) as [_ ?].
  exists (Z.to_nat max_steps - k - 1)%nat.
  replace (Z.to_nat max_steps)
    with (k + S (Z.to_nat max_steps - k - 1))%nat at 1 by lia.
  rewrite (while_loop_reaches _ _ _ _ _ _ _ Hr). simpl.
  by rewrite Hc, Hb.
Qed.

End LoopExit.

(** ** run_graph *)

(** The loop [run_graph] runs always comes to an end. *)
Lemma run_graph_total self h rid gid init max_steps :
  (run_graph self h rid gid init max_steps).2 ≠ Diverge.
Proof.
  unfold run_graph.
  destruct (graphs self !! gid) as [graph|]; [|done].
  destruct (h !! init) as [[d0|]|]; [|done..].
  pose proof (while_loop_fuel (tool_registry self) graph max_steps
    (Z.to_nat max_steps) (entry_frame graph rid gid h d0)) as Hfuel.
  destruct while_loop; [done..|].
  exfalso. apply Hfuel; [|done]. simpl. lia.
Qed.

Section Run.

Context (self : GraphEngine) (h : heap) (rid gid : string) (init : loc)
        (max_steps : Z) (graph : GraphDefinition) (d0 : dict).
Hypothesis Hgraph : graphs self !! gid = Some graph.
Hypothesis Hinit : h !! init = Some (ODict d0).

#[local] Abbreviation entry := (entry_frame graph rid gid h d0).
#[local] Abbreviation run_reaches :=
  (reaches (tool_registry self) graph max_steps).

(** A run whose loop ends, by either exit, stores and returns the record
    the loop built; which exit it was is not looked at. *)
Lemma run_graph_Done k f :
  run_reaches k entry f → loop_cond max_steps f = false →
  run_graph self h rid gid init max_steps
  = (persisted self rid (f_run_record f), f_heap f,
     Return (f_run_record f)).
Proof.
  intros Hr Hc. unfold run_graph. rewrite Hgraph, Hinit.
  by rewrite (while_loop_reaches_Done _ _ _ k _ f).
Qed.

(** A run whose loop body raises gives the exception and leaves the
    engine as it was. *)
Lemma run_graph_Throw k f e h' :
  run_reaches k entry f → loop_cond max_steps f = true →
  loop_body (tool_registry self) graph f = Throw e h' →
  run_graph self h rid gid init max_steps = (self, h', Raise e).
Proof.
  intros Hr Hc Hb. unfold run_graph. rewrite Hgraph, Hinit.
  by rewrite (while_loop_reaches_Throw _ _ _ k _ f e h').
Qed.

(** A run that returns a record ran its loop to a false condition. *)
Lemma run_graph_Return self' h' r :
  run_graph self h rid gid init max_steps = (self', h', Return r) →
  ∃ k f, run_reaches k entry f ∧ loop_cond max_steps f = false ∧
         r = f_run_record f ∧ h' = f_heap f ∧
         self' = persisted self rid r.
Proof.
  unfold run_graph. rewrite Hgraph, Hinit.
  destruct (while_loop _ _ _ _ _) as [f| |] eqn:Hloop;
    [|discriminate..].
  intros [= <- <- <-].
  apply while_loop_Done in Hloop as (k & _ & Hr & Hc).
  by exists k, f.
Qed.

End Run.

Lemma run_graph_Return_inv self h rid gid init max_steps self' h' r :
  run_graph self h rid gid init max_steps = (self', h', Return r) →
  ∃ graph d0, graphs self !! gid = Some graph ∧
              h !! init = Some (ODict d0).
Proof.
  unfold run_graph.
  destruct (graphs self !! gid) as [graph|]; [|discriminate].
  destruct (h !! init) as [[d0|]|]; [|discriminate..].
  intros _. by exists graph, d0.
Qed.

Lemma run_graph_Raise_engine self h rid gid init max_steps self' h' e :
  run_graph self h rid gid init max_steps = (self', h', Raise e) →
  self' = self.
Proof.
  unfold run_graph.
  destruct (graphs self !! gid) as [graph|]; [|by intros [= <- <- <-]].
  destruct (h !! init) as [[d0|]|]; [|by intros [= <- <- <-]..].
  destruct while_loop; [discriminate| |discriminate]. by intros [= <- <- <-].
Qed.

(** ** Unknown graph *)

(** C6. [run_graph] on a graph identifier that is not in the graph store
    raises the graph-not-found [KeyError] and changes nothing: the engine
    (node registry, graph store, run store) and the store of objects, with
    the caller's initial state in it, are returned as they were, and no
    run identifier gains an entry. *)
Theorem run_graph_unknown_graph self h rid gid init max_steps :
  graphs self !! gid = None →
  run_graph self h rid gid init max_steps = (self, h, Raise (KeyError gid)) ∧
  ∀ self' h' o,
    run_graph self h rid gid init max_steps = (self', h', o) →
    tool_registry self' = tool_registry self ∧
    graphs self' = graphs self ∧
    (∀ i, get_run self' i = get_run self i) ∧
    h' = h.
Proof.
  intros Hg. assert (run_graph self h rid gid init max_steps
                     = (self, h, Raise (KeyError gid))) as Heq.
  { unfold run_graph. by rewrite Hg. }
  split; [done|]. intros self' h' o. rewrite Heq. by intros [= <- <- <-].
Qed.

Lemma run_graph_unknown_graph_witness :
  run_graph new_GraphEngine Examples.empty_state "run-1" "nowhere" 1%positive
    100
  = (new_GraphEngine, Examples.empty_state, Raise (KeyError "nowhere")).
Proof.
  apply (run_graph_unknown_graph new_GraphEngine Examples.empty_state
           "run-1" "nowhere" 1%positive 100).
  reflexivity.
Defined.

(** ** The log *)

Lemma contiguous_upto_mono c c' r :
  c ≤ c' → contiguous_upto c r → contiguous_upto c' r.
Proof. intros Hc (k & Hk & Hle). exists k. split; [done|lia]. Qed.

(** The log of a returned record for every ceiling, negative ones
    included: as many entries as the body ran, numbered from 0. *)
Lemma run_graph_log self h rid gid init max_steps self' h' r :
  run_graph self h rid gid init max_steps = (self', h', Return r) →
  ∃ (k : nat) graph d0 f,
    graphs self !! gid = Some graph ∧ h !! init = Some (ODict d0) ∧
    reaches (tool_registry self) graph max_steps k
      (entry_frame graph rid gid h d0) f ∧
    r = f_run_record f ∧
    length (log r) = k ∧
    step_number <$> log r = Z.of_nat <$> seq 0 k ∧
    Z.of_nat k ≤ Z.max 0 max_steps ∧
    self' = persisted self rid r.
Proof.
  intros Hrun.
  destruct (run_graph_Return_inv _ _ _ _ _ _ _ _ _ Hrun)
    as (graph & d0 & Hg & Hi).
  destruct (run_graph_Return _ _ _ _ _ _ _ _ Hg Hi _ _ _ Hrun)
    as (k & f & Hr & Hc & -> & -> & ->).
  exists k, graph, d0, f. split_and!; try done.
  - destruct (reaches_log _ _ _ _ _ _ Hr) as (es & Hlog & Hlen & _).
    rewrite Hlog. simpl. done.
  - destruct (reaches_log _ _ _ _ _ _ Hr) as (es & Hlog & Hlen & Hnum).
    rewrite Hlog. simpl. rewrite Hnum. apply list_fmap_ext.
    intros _ i _. simpl. lia.
  - pose proof (reaches_step_number _ _ _ _ _ _ Hr) as Hs. simpl in Hs.
    destruct (reaches_bound _ _ _ _ _ _ Hr); lia.
Qed.

(** C2, as stated, fails for a negative ceiling: with [max_steps = -5]
    the loop does not run, the record returned has an empty log, and no
    [k ≥ 0] is at most the ceiling. *)
Lemma log_bound_fails_below_zero :
  ∃ r, (MoreExamples.pass_run (-5)).2 = Return r ∧
       log r = [] ∧ ¬ contiguous_upto (-5) r.
Proof.
  eexists. split_and!; [vm_compute; reflexivity..|].
  intros (k & _ & Hk). lia.
Qed.

(** C2, amended. For every graph, initial state and step ceiling: the
    log of the record [run_graph] returns has one entry for each of the
    [k] executions of the loop body, that is for each node invocation, its
    step numbers are [0, ..., k-1], and [k] is at most the ceiling, or 0
    when the ceiling is negative; the record is the one stored under the
    run identifier, and every record of the run store keeps this shape. *)
Theorem run_graph_log_contiguous
    self h rid gid init max_steps self' h' o :
  run_graph self h rid gid init max_steps = (self', h', o) →
  (∀ r, o = Return r →
     (∃ (k : nat) graph d0 f,
        graphs self !! gid = Some graph ∧ h !! init = Some (ODict d0) ∧
        reaches (tool_registry self) graph max_steps k
          (entry_frame graph rid gid h d0) f ∧
        r = f_run_record f ∧
        length (log r) = k ∧
        step_number <$> log r = Z.of_nat <$> seq 0 k ∧
        Z.of_nat k ≤ Z.max 0 max_steps) ∧
     get_run self' rid = Some r) ∧
  (∀ c, Z.max 0 max_steps ≤ c →
     (∀ i r0, get_run self i = Some r0 → contiguous_upto c r0) →
     (∀ i r0, get_run self' i = Some r0 → contiguous_upto c r0)).
Proof.
  intros Hrun. split.
  - intros r ->.
    destruct (run_graph_log _ _ _ _ _ _ _ _ _ Hrun)
      as (k & graph & d0 & f & Hg & Hi & Hr & -> & Hlen & Hnum & Hk & ->).
    split.
    + by exists k, graph, d0, f.
    + unfold get_run, persisted. simpl. by rewrite lookup_insert_eq.
  - intros c Hc Hstore i r0. destruct o as [r|e|].
    + destruct (run_graph_log _ _ _ _ _ _ _ _ _ Hrun)
        as (k & graph & d0 & f & Hg & Hi & Hr & -> & Hlen & Hnum & Hk & ->).
      unfold get_run, persisted. simpl.
      destruct (decide (rid = i)) as [->|Hne].
      * rewrite lookup_insert_eq. intros [= <-]. exists k. split; [done|lia].
      * rewrite lookup_insert_ne by done. apply Hstore.
    + apply run_graph_Raise_engine in Hrun as ->. apply Hstore.
    + pose proof (run_graph_total self h rid gid init max_steps) as Ht.
      rewrite Hrun in Ht. done.
Qed.

Lemma run_graph_log_contiguous_witness :
  ∃ r, Examples.loop_run.2 = Return r ∧
       get_run Examples.loop_run.1.1 "run-1" = Some r.
Proof.
  destruct (run_graph_log_contiguous Examples.loop_engine
              Examples.empty_state "run-1" "graph-1" 1%positive 10
              Examples.loop_run.1.1 Examples.loop_run.1.2
              Examples.loop_run.2) as [H _].
  - unfold Examples.loop_run. by destruct run_graph as [[??]?].
  - assert (∃ r, Examples.loop_run.2 = Return r) as [r Hr]
      by (vm_compute; eauto).
    exists r. split; [done|]. by apply H.
Defined.

(** ** A node without implementation *)



(** ** Stop and the dynamic key *)

Lemma decide_next_stop graph h s d n :
  truthy h (get d "_stop") = true → decide_next graph h s d n = (h, VNone).
Proof. unfold decide_next. by intros ->. Qed.

(** Without a stop the dynamic key is gone from the live state. *)
Lemma decide_next_pops graph h s d n :
  truthy h (get d "_stop") = false →
  (decide_next graph h s d n).1 !! s = Some (ODict (delete "_next_node" d)).
Proof.
  unfold decide_next, pop. intros ->.
  destruct (negb _); simpl; by rewrite lookup_insert_eq.
Qed.

Lemma entry_frame_log graph rid gid h d0 :
  log (f_run_record (entry_frame graph rid gid h d0)) = [].
Proof. done. Qed.

(** The entry a step appends sits at the index of its step number, and
    stays there. *)
Lemma reaches_log_entry reg graph max_steps k j f0 f f1 f2 :
  log (f_run_record f0) = [] →
  reaches reg graph max_steps k f0 f →
  loop_body reg graph f = Next f1 →
  reaches reg graph max_steps j f1 f2 →
  log (f_run_record f2) !! k = last (log (f_run_record f1)) ∧
  length (log (f_run_record f1)) = S k.
Proof.
  intros H0 Hr Hb Hr'.
  destruct (reaches_log _ _ _ _ _ _ Hr) as (es & Hlog & Hlen & _).
  destruct (reaches_log _ _ _ _ _ _ Hr') as (es' & Hlog' & _).
  rewrite H0 in Hlog. simpl in Hlog.
  apply loop_body_Next in Hb as (n&?&?&?&d1&?&?&?&?&?&?&?&Hrec).
  rewrite Hlog', Hrec. simpl. rewrite Hlog, last_snoc, length_app. simpl.
  split; [|lia].
  rewrite lookup_app_l by (rewrite length_app; simpl; lia).
  rewrite lookup_app_r by lia. by rewrite Hlen, Nat.sub_diag.
Qed.

(** C3. When the state a node returns has a truthy ["_stop"] and holds
    ["_next_node"] as well, the run halts at that step: [run_graph]
    returns and stores a record whose log ends with this step; nothing is
    removed from the state (the store is the one the node left, with the
    key still in the live state), and the final recorded state holds the
    key with its value. *)
Theorem stop_wins_and_keeps_next_node
    self h rid gid init max_steps graph d0 k f n tool h1 s1 d1 v :
  graphs self !! gid = Some graph →
  h !! init = Some (ODict d0) →
  reaches (tool_registry self) graph max_steps k
    (entry_frame graph rid gid h d0) f →
  loop_cond max_steps f = true →
  registry_get (tool_registry self) (f_current_node f) = Found n tool →
  tool (f_heap f) (f_state f) = (h1, Returns s1) →
  h1 !! s1 = Some (ODict d1) →
  truthy h1 (get d1 "_stop") = true →
  d1 !! "_next_node" = Some v →
  ∃ r,
    run_graph self h rid gid init max_steps
    = (persisted self rid r, h1, Return r) ∧
    get_run (persisted self rid r) rid = Some r ∧
    length (log r) = S k ∧
    last (log r) = Some {| step_number := Z.of_nat k; node := n;
                           state_snapshot := d1 |} ∧
    current_state r = d1 ∧
    current_state r !! "_next_node" = Some v ∧
    ∃ d, h1 !! s1 = Some (ODict d) ∧ d !! "_next_node" = Some v.
Proof.
  intros Hg Hi Hr Hc Hreg Htool Hs1 Hstop Hnext.
  pose proof (loop_body_run _ graph _ _ _ _ _ _ Hreg Htool Hs1) as Hb.
  rewrite (decide_next_stop _ _ _ _ _ Hstop) in Hb. simpl in Hb.
  match type of Hb with _ = Next ?x => set (f' := x) in Hb end.
  pose proof (reaches_snoc _ _ _ _ _ _ _ Hr Hc Hb) as Hr'.
  exists (f_run_record f'). split_and!.
  - by apply (run_graph_Done self h rid gid init max_steps graph d0 Hg Hi
                (S k) f').
  - unfold get_run. simpl. apply lookup_insert_eq.
  - simpl. destruct (reaches_log _ _ _ _ _ _ Hr) as (es & -> & Hlen & _).
    rewrite length_app. simpl. lia.
  - simpl. rewrite last_snoc.
    by rewrite (reaches_step_number _ _ _ _ _ _ Hr).
  - done.
  - done.
  - by exists d1.
Qed.

Lemma stop_wins_and_keeps_next_node_witness :
  ∃ r h',
    run_graph (Examples.AB_engine Examples.halt_tool Examples.pass_tool)
      Examples.empty_state "run-1" "graph-1" 1%positive 100
    = (persisted (Examples.AB_engine Examples.halt_tool Examples.pass_tool)
         "run-1" r, h', Return r) ∧
    length (log r) = 1%nat ∧
    current_state r !! "_next_node" = Some (VStr "A").
Proof.
  destruct (stop_wins_and_keeps_next_node
              (Examples.AB_engine Examples.halt_tool Examples.pass_tool)
              Examples.empty_state "run-1" "graph-1" 1%positive 100
              Examples.AB_graph ∅ 0
              (entry_frame Examples.AB_graph "run-1" "graph-1"
                 Examples.empty_state ∅)
              "A" Examples.halt_tool
              (<[2%positive :=
                   ODict {["_stop" := VBool true;
                           "_next_node" := VStr "A"]}]>
                 Examples.empty_state)
              2%positive
              {["_stop" := VBool true; "_next_node" := VStr "A"]}
              (VStr "A"))
    as (r & Hrun & _ & Hlen & _ & _ & Hkey & _).
  - vm_compute; reflexivity.
  - vm_compute; reflexivity.
  - apply reaches_O.
  - vm_compute; reflexivity.
  - reflexivity.
  - vm_compute; reflexivity.
  - vm_compute; reflexivity.
  - vm_compute; reflexivity.
  - vm_compute; reflexivity.
  - by exists r, (<[2%positive :=
                   ODict {["_stop" := VBool true;
                           "_next_node" := VStr "A"]}]>
                 Examples.empty_state).
Defined.

(** ** Snapshots *)

(** A run that returns passes through every frame it reaches, and the
    record it returns holds, at index [k], the entry of the [k]-th
    execution of the loop body. *)
Lemma run_graph_log_entry
    self h rid gid init max_steps graph d0 k f f1 self' h' r :
  graphs self !! gid = Some graph →
  h !! init = Some (ODict d0) →
  reaches (tool_registry self) graph max_steps k
    (entry_frame graph rid gid h d0) f →
  loop_cond max_steps f = true →
  loop_body (tool_registry self) graph f = Next f1 →
  run_graph self h rid gid init max_steps = (self', h', Return r) →
  ∃ j f2,
    reaches (tool_registry self) graph max_steps j f1 f2 ∧
    loop_cond max_steps f2 = false ∧
    r = f_run_record f2 ∧ h' = f_heap f2 ∧
    log r !! k = last (log (f_run_record f1)).
Proof.
  intros Hg Hi Hr Hc Hb Hrun.
  destruct (while_loop_reaches_Next (tool_registry self) graph max_steps
              k (entry_frame graph rid gid h d0) f f1 eq_refl Hr Hc Hb)
    as [fuel Hfuel].
  unfold run_graph in Hrun. rewrite Hg, Hi, Hfuel in Hrun.
  destruct (while_loop _ _ _ fuel f1) as [f2| |] eqn:Hloop;
    [|discriminate..].
  injection Hrun as <- <- <-.
  apply while_loop_Done in Hloop as (j & _ & Hr' & Hc').
  exists j, f2. split_and!; try done.
  by apply (reaches_log_entry _ _ _ _ _ _ _ _ _
              (entry_frame_log graph rid gid h d0) Hr Hb Hr').
Qed.

(** C10. When the state a node returns at step [k] holds ["_next_node"],
    the entry the run records for step [k] holds it too, with its value,
    because the snapshot is taken before the key is popped: so it is in
    the log of every record the run returns. If the ceiling ends the run
    right after this step, the final recorded state holds the key as well,
    while the live state (when no stop was asked for) has lost it. *)
Theorem next_node_key_in_snapshot
    self h rid gid init max_steps graph d0 k f n tool h1 s1 d1 v :
  graphs self !! gid = Some graph →
  h !! init = Some (ODict d0) →
  reaches (tool_registry self) graph max_steps k
    (entry_frame graph rid gid h d0) f →
  loop_cond max_steps f = true →
  registry_get (tool_registry self) (f_current_node f) = Found n tool →
  tool (f_heap f) (f_state f) = (h1, Returns s1) →
  h1 !! s1 = Some (ODict d1) →
  d1 !! "_next_node" = Some v →
  (∀ self' h' r,
     run_graph self h rid gid init max_steps = (self', h', Return r) →
     ∃ e, log r !! k = Some e ∧
          step_number e = Z.of_nat k ∧ node e = n ∧
          state_snapshot e = d1 ∧
          state_snapshot e !! "_next_node" = Some v) ∧
  (Z.of_nat k + 1 = max_steps →
   ∃ h' r,
     run_graph self h rid gid init max_steps
     = (persisted self rid r, h', Return r) ∧
     length (log r) = S k ∧
     current_state r !! "_next_node" = Some v ∧
     (truthy h1 (get d1 "_stop") = false →
      h' !! s1 = Some (ODict (delete "_next_node" d1)))).
Proof.
  intros Hg Hi Hr Hc Hreg Htool Hs1 Hnext.
  pose proof (loop_body_run _ graph _ _ _ _ _ _ Hreg Htool Hs1) as Hb.
  match type of Hb with _ = Next ?x => set (f1 := x) in Hb end.
  pose proof (reaches_step_number _ _ _ _ _ _ Hr) as Hstep.
  simpl in Hstep. split.
  - intros self' h' r Hrun.
    destruct (run_graph_log_entry _ _ _ _ _ _ _ _ _ _ _ _ _ _
                Hg Hi Hr Hc Hb Hrun) as (j & f2 & _ & _ & _ & _ & Hk).
    simpl in Hk. rewrite last_snoc in Hk.
    eexists. split; [exact Hk|]. simpl. by rewrite Hstep.
  - intros Hmax.
    assert (loop_cond max_steps f1 = false) as Hc1.
    { unfold loop_cond. simpl. apply andb_false_iff. right.
      apply Z.ltb_ge. lia. }
    exists (f_heap f1), (f_run_record f1). split_and!.
    + apply (run_graph_Done self h rid gid init max_steps graph d0 Hg Hi
               (S k) f1); [|done].
      by apply (reaches_snoc _ _ _ _ _ _ _ Hr Hc Hb).
    + simpl. destruct (reaches_log _ _ _ _ _ _ Hr) as (es & -> & Hlen & _).
      rewrite length_app. simpl. lia.
    + done.
    + intros Hstop. simpl. by apply decide_next_pops.
Qed.

Lemma next_node_key_in_snapshot_witness :
  ∃ h' r,
    run_graph Examples.spin_engine Examples.empty_state "run-1" "graph-1"
      1%positive 1
    = (persisted Examples.spin_engine "run-1" r, h', Return r) ∧
    current_state r !! "_next_node" = Some (VStr "spin") ∧
    h' !! 2%positive = Some (ODict ∅).
Proof.
  destruct (next_node_key_in_snapshot Examples.spin_engine
              Examples.empty_state "run-1" "graph-1" 1%positive 1
              {| graph_id := "graph-1"; nodes := ["spin"];
                 edges := {["spin" := None]}; start_node := "spin" |}
              ∅ 0
              (entry_frame
                 {| graph_id := "graph-1"; nodes := ["spin"];
                    edges := {["spin" := None]}; start_node := "spin" |}
                 "run-1" "graph-1" Examples.empty_state ∅)
              "spin" Examples.spin_tool
              (<[2%positive := ODict {["_next_node" := VStr "spin"]}]>
                 Examples.empty_state)
              2%positive {["_next_node" := VStr "spin"]} (VStr "spin"))
    as [_ H].
  - vm_compute; reflexivity.
  - vm_compute; reflexivity.
  - apply reaches_O.
  - vm_compute; reflexivity.
  - reflexivity.
  - vm_compute; reflexivity.
  - vm_compute; reflexivity.
  - vm_compute; reflexivity.
  - destruct H as (h' & r & Hrun & _ & Hkey & Hlive); [lia|].
    exists h', r. split_and!; [done..|].
    etrans; [apply Hlive|]; vm_compute; reflexivity.
Defined.

(** C5, as stated, fails: node "A" puts a list into the state, node "B"
    appends to that list in place, and the snapshot recorded for "A",
    which showed [{"xs": [1]}] after step 0, shows [{"xs": [1, 2]}] after
    step 1. *)
Lemma snapshots_not_deep : ¬ snapshots_deep.
Proof.
  intros Hdeep.
  specialize (Hdeep (tool_registry Examples.shared_list_engine)
                Examples.AB_graph 100 Examples.after_A Examples.after_B
                {| step_number := 0; node := "A";
                   state_snapshot := {["xs" := VRef 3%positive]} |}
                2%nat).
  assert (render_dict 2 (f_heap Examples.after_B)
            {["xs" := VRef 3%positive]}
          = [("xs", TList [TVal (VInt 1); TVal (VInt 2)])]) as Hafter
    by (vm_compute; reflexivity).
  assert (render_dict 2 (f_heap Examples.after_A)
            {["xs" := VRef 3%positive]}
          = [("xs", TList [TVal (VInt 1)])]) as Hbefore
    by (vm_compute; reflexivity).
  simpl in Hdeep. rewrite Hafter, Hbefore in Hdeep.
  enough ([("xs", TList [TVal (VInt 1); TVal (VInt 2)])]
          = [("xs", TList [TVal (VInt 1)])]) by discriminate.
  apply Hdeep.
  - eapply reaches_S; [| |apply reaches_O]; vm_compute; reflexivity.
  - vm_compute. apply list_elem_of_here.
Qed.

(** C5, amended. Every step's snapshot is a shallow copy of the state the
    node returned: the entry recorded for step [k] holds the dictionary
    [d1] that the state was right after the invocation, key by key, and
    whatever the later steps of the run do (keys added, removed or
    rebound in the live state, the engine's own removal of
    ["_next_node"]), every later frame of the run and the record it
    returns hold that same entry at index [k]. The values of [d1] are
    those of the live state, so a list or mapping among them is the
    object the live state refers to, not a copy. *)
Theorem snapshot_is_shallow_copy
    self h rid gid init max_steps graph d0 k f f1 :
  graphs self !! gid = Some graph →
  h !! init = Some (ODict d0) →
  reaches (tool_registry self) graph max_steps k
    (entry_frame graph rid gid h d0) f →
  loop_cond max_steps f = true →
  loop_body (tool_registry self) graph f = Next f1 →
  ∃ n tool h1 s1 d1,
    registry_get (tool_registry self) (f_current_node f) = Found n tool ∧
    tool (f_heap f) (f_state f) = (h1, Returns s1) ∧
    h1 !! s1 = Some (ODict d1) ∧
    (∀ j f2,
       reaches (tool_registry self) graph max_steps j f1 f2 →
       log (f_run_record f2) !! k
       = Some {| step_number := Z.of_nat k; node := n;
                 state_snapshot := d1 |}) ∧
    (∀ self' h' r,
       run_graph self h rid gid init max_steps = (self', h', Return r) →
       log r !! k
       = Some {| step_number := Z.of_nat k; node := n;
                 state_snapshot := d1 |}).
Proof.
  intros Hg Hi Hr Hc Hb.
  pose proof (reaches_step_number _ _ _ _ _ _ Hr) as Hstep. simpl in Hstep.
  destruct (loop_body_Next _ _ _ _ Hb)
    as (n & tool & h1 & s1 & d1 & Hcur & Hreg & Htool & Hs1 & _ & _ & _
        & Hrec).
  exists n, tool, h1, s1, d1. split_and!; try done.
  - rewrite Hcur. simpl. by rewrite Hreg.
  - intros j f2 Hr'.
    destruct (reaches_log_entry _ _ _ _ _ _ _ _ _
                (entry_frame_log graph rid gid h d0) Hr Hb Hr') as [-> _].
    rewrite Hrec. simpl. by rewrite last_snoc, Hstep.
  - intros self' h' r Hrun.
    destruct (run_graph_log_entry _ _ _ _ _ _ _ _ _ _ _ _ _ _
                Hg Hi Hr Hc Hb Hrun) as (j & f2 & _ & _ & _ & _ & ->).
    rewrite Hrec. simpl. by rewrite last_snoc, Hstep.
Qed.

Lemma snapshot_is_shallow_copy_witness :
  ∃ n d1,
    log (f_run_record Examples.after_B) !! 0%nat
    = Some {| step_number := 0; node := n; state_snapshot := d1 |}.
Proof.
  destruct (snapshot_is_shallow_copy Examples.shared_list_engine
              Examples.empty_state "run-1" "graph-1" 1%positive 100
              Examples.AB_graph ∅ 0
              (entry_frame Examples.AB_graph "run-1" "graph-1"
                 Examples.empty_state ∅)
              Examples.after_A)
    as (n & tool & h1 & s1 & d1 & Hreg & Htool & Hs1 & Hlater & _).
  - vm_compute; reflexivity.
  - vm_compute; reflexivity.
  - apply reaches_O.
  - vm_compute; reflexivity.
  - vm_compute; reflexivity.
  - exists n, d1. apply (Hlater 1%nat Examples.after_B).
    eapply reaches_S; [| |apply reaches_O]; vm_compute; reflexivity.
Defined.

(** ** The transition *)

Lemma edges_get_None graph n :
  edges_get graph n = VNone ↔
  edges graph !! n = None ∨ edges graph !! n = Some None.
Proof.
  unfold edges_get.
  destruct (edges graph !! n) as [[m|]|]; intuition congruence.
Qed.

(** C1, as stated, fails: with ["_next_node"] present and [None] the
    worded transition takes the (null) value of the key as the next node,
    which ends the run after "A"; the code removes the key and follows the
    static edge to "B". *)
Lemma transition_spec_differs :
  (transition_spec Examples.AB_graph Examples.null_next_state 1%positive
     {["_next_node" := VNone]} "A").2 = VNone ∧
  (decide_next Examples.AB_graph Examples.null_next_state 1%positive
     {["_next_node" := VNone]} "A").2 = VStr "B" ∧
  ∃ r, Examples.null_next_run.2 = Return r ∧ node <$> log r = ["A"; "B"].
Proof.
  split_and!; [vm_compute; reflexivity..|].
  eexists. split; vm_compute; reflexivity.
Qed.

(** C1, amended. After a node invocation that returned the state [d1] the
    loop body chooses the next node in this order: a truthy ["_stop"]
    halts the run and leaves the state alone; otherwise a ["_next_node"]
    key that is present is removed from the live state, and its value is
    the next node unless that value is [None]; otherwise (key absent, or
    present with [None]) the static edge of the current node is taken, and
    a missing or null edge halts the run. A next node of [None] ends the
    loop. *)
Theorem transition_priority reg graph f n tool h1 s1 d1 :
  registry_get reg (f_current_node f) = Found n tool →
  tool (f_heap f) (f_state f) = (h1, Returns s1) →
  h1 !! s1 = Some (ODict d1) →
  ∃ f',
    loop_body reg graph f = Next f' ∧
    (truthy h1 (get d1 "_stop") = true →
       f_current_node f' = VNone ∧ f_heap f' = h1) ∧
    (truthy h1 (get d1 "_stop") = false →
       (∀ v, d1 !! "_next_node" = Some v →
          f_heap f' = <[s1 := ODict (delete "_next_node" d1)]> h1 ∧
          (v ≠ VNone → f_current_node f' = v) ∧
          (v = VNone → f_current_node f' = edges_get graph n)) ∧
       (d1 !! "_next_node" = None →
          f_heap f' = h1 ∧ f_current_node f' = edges_get graph n)) ∧
    (edges_get graph n = VNone ↔
       edges graph !! n = None ∨ edges graph !! n = Some None) ∧
    (f_current_node f' = VNone →
       ∀ max_steps fuel, while_loop reg graph max_steps fuel f' = Done f').
Proof.
  intros Hreg Htool Hs1. eexists. split; [by eapply loop_body_run|].
  simpl. split_and!.
  - intros Hstop. by rewrite decide_next_stop.
  - intros Hstop. unfold decide_next, pop. rewrite Hstop. split.
    + intros v ->. simpl. destruct v; simpl; split_and!; done.
    + intros Hnone. rewrite Hnone. simpl.
      rewrite delete_id by done. by rewrite insert_id.
  - apply edges_get_None.
  - intros Hnone max_steps fuel. apply while_loop_cond_false.
    unfold loop_cond. simpl. by rewrite Hnone.
Qed.

Lemma transition_priority_witness :
  ∃ f',
    loop_body (tool_registry (Examples.AB_engine Examples.pass_tool
                                Examples.pass_tool))
      Examples.AB_graph
      (entry_frame Examples.AB_graph "run-1" "graph-1"
         Examples.null_next_state {["_next_node" := VNone]})
    = Next f' ∧
    f_current_node f' = VStr "B" ∧
    f_heap f' !! 2%positive = Some (ODict ∅).
Proof.
  destruct (transition_priority
              (tool_registry (Examples.AB_engine Examples.pass_tool
                                Examples.pass_tool))
              Examples.AB_graph
              (entry_frame Examples.AB_graph "run-1" "graph-1"
                 Examples.null_next_state {["_next_node" := VNone]})
              "A" Examples.pass_tool
              (<[2%positive := ODict {["_next_node" := VNone]}]>
                 Examples.null_next_state)
              2%positive {["_next_node" := VNone]})
    as (f' & Hb & _ & Hgo & _).
  - reflexivity.
  - vm_compute; reflexivity.
  - vm_compute; reflexivity.
  - exists f'. split; [done|].
    destruct Hgo as [Hkey _]; [vm_compute; reflexivity|].
    destruct (Hkey VNone) as (Hheap & _ & Hnext); [vm_compute; reflexivity|].
    split.
    + rewrite Hnext by done. vm_compute; reflexivity.
    + rewrite Hheap. vm_compute; reflexivity.
Defined.

(** ** The single-node loop example *)

(** C8. The graph with the single node "loop" (edge loop→null, start
    loop), whose node counts [c] up, asks for "loop" again while [c < 3]
    and sets the stop flag at [c == 3], run with ceiling 10 from [{}] (or
    from [{"c": 0}]): the record returned and stored has a log of exactly
    3 steps, all of node "loop", and a final state with [c = 3] and the
    stop flag set. *)
Theorem loop_example_three_steps :
  ∀ h0, h0 = Examples.empty_state ∨ h0 = Examples.zero_state →
  ∃ self' h' r,
    run_graph Examples.loop_engine h0 "run-1" "graph-1" 1%positive 10
    = (self', h', Return r) ∧
    get_run self' "run-1" = Some r ∧
    length (log r) = 3%nat ∧
    step_number <$> log r = [0; 1; 2] ∧
    node <$> log r = ["loop"; "loop"; "loop"] ∧
    current_state r !! "c" = Some (VInt 3) ∧
    current_state r !! "_stop" = Some (VBool true) ∧
    truthy h' (get (current_state r) "_stop") = true.
Proof.
  intros h0 Hh0.
  destruct (run_graph Examples.loop_engine h0 "run-1" "graph-1" 1%positive
              10) as [[self' h'] o] eqn:Hrun.
  assert (∃ r, o = Return r ∧
               length (log r) = 3%nat ∧
               step_number <$> log r = [0; 1; 2] ∧
               node <$> log r = ["loop"; "loop"; "loop"] ∧
               current_state r !! "c" = Some (VInt 3) ∧
               current_state r !! "_stop" = Some (VBool true) ∧
               truthy h' (get (current_state r) "_stop") = true)
    as (r & -> & Hr).
  { replace o
      with (run_graph Examples.loop_engine h0 "run-1" "graph-1" 1%positive
              10).2 by (by rewrite Hrun).
    replace h'
      with (run_graph Examples.loop_engine h0 "run-1" "graph-1" 1%positive
              10).1.2 by (by rewrite Hrun).
    clear Hrun.
    destruct Hh0 as [-> | ->]; eexists; split_and!; vm_compute; reflexivity. }
  exists self', h', r. split_and!; try apply Hr; [done|].
  destruct (run_graph_log _ _ _ _ _ _ _ _ _ Hrun)
    as (_ & _ & _ & _ & _ & _ & _ & _ & _ & _ & _ & ->).
  unfold get_run. simpl. apply lookup_insert_eq.
Qed.

Lemma loop_example_three_steps_witness :
  ∃ r, Examples.loop_run.2 = Return r ∧ length (log r) = 3%nat.
Proof.
  destruct (loop_example_three_steps Examples.empty_state)
    as (self' & h' & r & Hrun & _ & Hlen & _); [by left|].
  exists r. unfold Examples.loop_run. by rewrite Hrun.
Defined.

(** ** The step ceiling *)

(** Popping a key of the state does not make a value truthy. *)
Lemma truthy_delete h s d k v :
  h !! s = Some (ODict d) →
  truthy h v = false →
  truthy (<[s := ODict (delete k d)]> h) v = false.
Proof.
  intros Hs. destruct v as [| | | | |l]; simpl; try done.
  destruct (decide (l = s)) as [->|Hne].
  - rewrite Hs, lookup_insert_eq. rewrite !negb_false_iff, !bool_decide_eq_true.
    intros Hd. apply dom_empty_iff_L in Hd as ->. by rewrite delete_empty.
  - by rewrite lookup_insert_ne.
Qed.

(** A value keeps its truth value when an object is allocated. *)
Lemma truthy_alloc h o v :
  truthy h v = false → truthy (<[alloc h := o]> h) v = false.
Proof.
  destruct v as [| | | | |l]; simpl; try done.
  destruct (h !! l) as [o'|] eqn:Hl; [|done].
  rewrite lookup_insert_ne by (apply alloc_ne; by rewrite Hl).
  by rewrite Hl.
Qed.

Section SelfLoop.

Context (reg : gmap string ToolFunc) (graph : GraphDefinition)
        (max_steps : Z) (name : string) (t : ToolFunc).
Hypothesis Hreg : reg !! name = Some t.
Hypothesis Hself : self_looping name t.

Lemma spinning_body f :
  spinning name f →
  ∃ f', loop_body reg graph f = Next f' ∧ spinning name f' ∧
        f_step_number f' = f_step_number f + 1.
Proof.
  intros (Hcur & (d & Hd & Hlive) & _).
  destruct (Hself _ _ _ Hd Hlive)
    as (h1 & s1 & d1 & Htool & Hs1 & Hnext & Hstop).
  eexists. split; [|split].
  - eapply loop_body_run; [|done..]. rewrite Hcur. simpl. by rewrite Hreg.
  - unfold spinning, decide_next, pop. simpl. rewrite Hstop, Hnext. simpl.
    split_and!; [done| |].
    + eexists. split; [apply lookup_insert_eq|].
      unfold get. rewrite lookup_delete_ne by done.
      by apply truthy_delete.
    + by apply truthy_delete.
  - done.
Qed.

Lemma spinning_reaches (k : nat) f :
  spinning name f → f_step_number f + Z.of_nat k ≤ max_steps →
  ∃ f', reaches reg graph max_steps k f f' ∧ spinning name f'.
Proof.
  revert f. induction k as [|k IH]; intros f Hspin Hk.
  - exists f. split; [constructor|done].
  - destruct (spinning_body f Hspin) as (f1 & Hb & Hspin1 & Hstep).
    destruct (IH f1 Hspin1) as (f' & Hr & Hspin'); [lia|].
    exists f'. split; [|done]. econstructor; [|done..].
    apply loop_cond_true. destruct Hspin as (-> & _). split; [done|lia].
Qed.

End SelfLoop.

(** A node that only sets ["_next_node"] to its name keeps an unflagged
    state unflagged. *)
Lemma only_sets_next_self_looping name t :
  only_sets_next name t → self_looping name t.
Proof.
  intros Hnext h s d Hs Hstop. rewrite (Hnext h s d Hs).
  eexists _, _, _. split_and!.
  - done.
  - apply lookup_insert_eq.
  - apply lookup_insert_eq.
  - unfold get in *. rewrite lookup_insert_ne by done.
    destruct (d !! "_stop") as [[| | | | |l]|] eqn:E; simpl in *; try done.
    destruct (decide (l = s)) as [->|Hne]; [|by rewrite lookup_insert_ne].
    rewrite Hs in Hstop. simpl in Hstop.
    apply negb_false_iff, bool_decide_eq_true, dom_empty_iff_L in Hstop.
    subst d. by rewrite lookup_empty in E.
Qed.

Lemma spin_tool_only_sets_next : only_sets_next "spin" Examples.spin_tool.
Proof.
  intros h s d Hs. unfold Examples.spin_tool, Examples.on_state.
  by rewrite Hs.
Qed.

Lemma spin_tool_self_looping : self_looping "spin" Examples.spin_tool.
Proof. apply only_sets_next_self_looping, spin_tool_only_sets_next. Qed.

(** C4, as stated, fails: the node that only sets ["_next_node"] to its
    own name never sets the stop flag, but run from the initial state
    [{"_stop": True}] it is invoked once, the stop flag it was handed ends
    the run, and the record has 1 log entry and a flagged final state. *)
Lemma self_loop_claim_fails : ¬ self_loop_claim.
Proof.
  intros Hclaim.
  destruct (Hclaim Examples.spin_engine MoreExamples.stopped_state "run-1"
              "graph-1" 1%positive
              {| graph_id := "graph-1"; nodes := ["spin"];
                 edges := {["spin" := None]}; start_node := "spin" |}
              {["_stop" := VBool true]} "spin" Examples.spin_tool)
    as (self' & h' & r & Hrun & Hlen & _).
  - vm_compute; reflexivity.
  - vm_compute; reflexivity.
  - reflexivity.
  - reflexivity.
  - apply spin_tool_only_sets_next.
  - assert (match MoreExamples.stopped_spin_run.2 with
            | Return r => length (log r)
            | _ => 0%nat
            end = 1%nat) as H1 by (vm_compute; reflexivity).
    unfold MoreExamples.stopped_spin_run in H1. rewrite Hrun in H1.
    simpl in H1. lia.
Qed.

(** C4, amended. Reaching the step ceiling is not an error: whenever the
    loop of a run ends, because the current node is [None] (a stop, or no
    successor) or because the step counter has reached the ceiling,
    [run_graph] returns the record the loop built and stores it under the
    run identifier, in the same way for both exits; the record is made of
    the run and graph identifiers, the log and the last snapshot and of
    nothing that tells the two apart. In particular a start node that, on
    every invocation, sets ["_next_node"] to its own name and never sets
    the stop flag, run with a ceiling [max_steps ≥ 0] (100 for one) from
    an initial state whose stop flag is not truthy, gives a record with
    exactly [max_steps] log entries and a final state whose stop flag is
    not set. *)
Theorem ceiling_ends_run_normally
    self h rid gid init max_steps graph d0 :
  graphs self !! gid = Some graph →
  h !! init = Some (ODict d0) →
  (∀ k f,
     reaches (tool_registry self) graph max_steps k
       (entry_frame graph rid gid h d0) f →
     f_current_node f = VNone ∨ max_steps ≤ f_step_number f →
     run_graph self h rid gid init max_steps
     = (persisted self rid (f_run_record f), f_heap f,
        Return (f_run_record f)) ∧
     get_run (persisted self rid (f_run_record f)) rid
     = Some (f_run_record f) ∧
     f_run_record f
     = {| run_id := rid; run_graph_id := gid;
          log := log (f_run_record f);
          current_state := current_state (f_run_record f) |}) ∧
  (∀ name t,
     start_node graph = name →
     tool_registry self !! name = Some t →
     self_looping name t →
     truthy h (get d0 "_stop") = false →
     0 ≤ max_steps →
     ∃ h' r,
       run_graph self h rid gid init max_steps
       = (persisted self rid r, h', Return r) ∧
       get_run (persisted self rid r) rid = Some r ∧
       length (log r) = Z.to_nat max_steps ∧
       truthy h' (get (current_state r) "_stop") = false).
Proof.
  intros Hg Hi.
  assert (∀ k f,
     reaches (tool_registry self) graph max_steps k
       (entry_frame graph rid gid h d0) f →
     f_current_node f = VNone ∨ max_steps ≤ f_step_number f →
     run_graph self h rid gid init max_steps
     = (persisted self rid (f_run_record f), f_heap f,
        Return (f_run_record f)) ∧
     get_run (persisted self rid (f_run_record f)) rid
     = Some (f_run_record f) ∧
     f_run_record f
     = {| run_id := rid; run_graph_id := gid;
          log := log (f_run_record f);
          current_state := current_state (f_run_record f) |}) as Hexit.
  { intros k f Hr Hend. split_and!.
    - apply (run_graph_Done self h rid gid init max_steps graph d0 Hg Hi
               k f Hr).
      unfold loop_cond. destruct Hend as [->|Hend]; [done|].
      apply andb_false_iff. right. by apply Z.ltb_ge.
    - unfold get_run. simpl. apply lookup_insert_eq.
    - destruct (reaches_ids _ _ _ _ _ _ Hr) as [Hrid Hgid].
      simpl in Hrid, Hgid. rewrite <- Hrid, <- Hgid.
      by destruct (f_run_record f). }
  split; [exact Hexit|].
  intros name t Hstart Hreg Hself Hstop0 Hmax.
  destruct (spinning_reaches (tool_registry self) graph max_steps name t
              Hreg Hself (Z.to_nat max_steps)
              (entry_frame graph rid gid h d0))
    as (f & Hr & Hcur & _ & Hstop).
  { split_and!; simpl.
    - by rewrite Hstart.
    - eexists. split; [apply lookup_insert_eq|].
      by apply truthy_alloc.
    - done. }
  { simpl. lia. }
  pose proof (reaches_step_number _ _ _ _ _ _ Hr) as Hstep. simpl in Hstep.
  destruct (Hexit _ f Hr) as (Hrun & Hget & _); [right; lia|].
  exists (f_heap f), (f_run_record f). split_and!; try done.
  destruct (reaches_log _ _ _ _ _ _ Hr) as (es & -> & Hlen & _). done.
Qed.

Lemma ceiling_ends_run_normally_witness :
  ∃ h' r,
    run_graph Examples.spin_engine Examples.empty_state "run-1" "graph-1"
      1%positive 100
    = (persisted Examples.spin_engine "run-1" r, h', Return r) ∧
    length (log r) = 100%nat ∧
    truthy h' (get (current_state r) "_stop") = false.
Proof.
  destruct (ceiling_ends_run_normally Examples.spin_engine
              Examples.empty_state "run-1" "graph-1" 1%positive 100
              {| graph_id := "graph-1"; nodes := ["spin"];
                 edges := {["spin" := None]}; start_node := "spin" |}
              ∅) as [_ Hspin].
  - vm_compute; reflexivity.
  - vm_compute; reflexivity.
  - destruct (Hspin "spin" Examples.spin_tool)
      as (h' & r & Hrun & _ & Hlen & Hstop).
    + reflexivity.
    + reflexivity.
    + exact spin_tool_self_looping.
    + reflexivity.
    + lia.
    + exists h', r. split_and!; [done| |done].
      rewrite Hlen. reflexivity.
Defined.

(** ** The caller's mapping *)

Section Spares.

Context (reg : gmap string ToolFunc) (graph : GraphDefinition)
        (max_steps : Z) (l0 : loc).
Hypothesis Hreg : ∀ n t, reg !! n = Some t → tool_spares l0 t.

Lemma loop_body_spares f :
  is_Some (f_heap f !! l0) → f_state f ≠ l0 →
  match loop_body reg graph f with
  | Next f' => f_state f' ≠ l0 ∧ f_heap f' !! l0 = f_heap f !! l0
  | Throw _ h' => h' !! l0 = f_heap f !! l0
  end.
Proof.
  intros Hl0 Hne. unfold loop_body.
  destruct (registry_get reg (f_current_node f)) as [n tool| |] eqn:Hget;
    [|done..].
  apply registry_get_Found in Hget as [_ Hget].
  destruct (Hreg _ _ Hget (f_heap f) (f_state f) Hl0 Hne) as [Hkeep Hret].
  destruct (tool (f_heap f) (f_state f)) as [h1 [s1|]]; simpl in *;
    [|done].
  assert (s1 ≠ l0) as Hs1 by congruence.
  destruct (h1 !! s1) as [[d1|]|]; [|done..].
  destruct (decide_next graph h1 s1 d1 n) as [h2 next] eqn:Hdec.
  simpl. split; [done|]. rewrite <- Hkeep.
  unfold decide_next, pop in Hdec.
  destruct (truthy h1 (get d1 "_stop")); [by injection Hdec as <- _|].
  destruct (negb _); injection Hdec as <- _; by rewrite lookup_insert_ne.
Qed.

Lemma while_loop_spares fuel f :
  is_Some (f_heap f !! l0) → f_state f ≠ l0 →
  match while_loop reg graph max_steps fuel f with
  | Done f' => f_heap f' !! l0 = f_heap f !! l0
  | Raised _ h' => h' !! l0 = f_heap f !! l0
  | OutOfFuel => True
  end.
Proof.
  revert f. induction fuel as [|fuel IH]; intros f Hl0 Hne; simpl.
  - by destruct (loop_cond max_steps f).
  - destruct (loop_cond max_steps f); [|done].
    pose proof (loop_body_spares f Hl0 Hne) as Hb.
    destruct (loop_body reg graph f) as [f1|e h']; [|done].
    destruct Hb as [Hne1 Heq].
    assert (is_Some (f_heap f1 !! l0)) as Hl1 by (by rewrite Heq).
    specialize (IH f1 Hl1 Hne1).
    destruct (while_loop reg graph max_steps fuel f1);
      [by rewrite IH..|done].
Qed.

End Spares.

Lemma reaches_spares reg graph max_steps l0 k f f' :
  (∀ n t, reg !! n = Some t → tool_spares l0 t) →
  reaches reg graph max_steps k f f' →
  is_Some (f_heap f !! l0) → f_state f ≠ l0 →
  f_state f' ≠ l0 ∧ f_heap f' !! l0 = f_heap f !! l0.
Proof.
  intros Hreg. induction 1 as [f|k f f1 f2 Hc Hb _ IH]; intros Hl0 Hne;
    [done|].
  pose proof (loop_body_spares reg graph l0 Hreg f Hl0 Hne) as Hstep.
  rewrite Hb in Hstep. destruct Hstep as [Hne1 Heq].
  destruct IH as [Hne2 Heq2]; [by rewrite Heq|done|].
  split; [done|]. by rewrite Heq2.
Qed.

(** C9, as stated, fails: nothing keeps a node from returning the
    caller's mapping when it can reach it. The caller's mapping
    [d = {"_next_node": "B"}] with [d["me"] = d] is copied; node "A"
    returns [state["me"]], which is [d] itself, and the engine pops
    ["_next_node"] from it: after the run the caller's mapping has lost
    that key. *)
Lemma run_graph_pops_from_initial_state :
  MoreExamples.me_state !! 1%positive
  = Some (ODict {["me" := VRef 1%positive; "_next_node" := VStr "B"]}) ∧
  MoreExamples.me_run.1.2 !! 1%positive
  = Some (ODict {["me" := VRef 1%positive]}) ∧
  ∃ r, MoreExamples.me_run.2 = Return r ∧ node <$> log r = ["A"; "B"].
Proof.
  split_and!; [vm_compute; reflexivity..|].
  eexists. split; vm_compute; reflexivity.
Qed.

(** C9, amended. [run_graph] works on a copy of the caller's mapping,
    not on the mapping: with nodes that, in a store where the caller's
    mapping exists, write that mapping or return it only when it is the
    state they were handed (whatever else they write or allocate), the
    live state of every frame of the run is another object than the
    caller's mapping, and the object at the caller's reference is at
    every step, and after every run, whether it returned a record (stopped
    or cut by the ceiling) or raised, the object it was before: the same
    keys with the same top-level values. *)
Theorem run_graph_works_on_a_copy
    self h rid gid init max_steps :
  (∀ n t, tool_registry self !! n = Some t → tool_spares init t) →
  (∀ graph d0 k f,
     graphs self !! gid = Some graph →
     h !! init = Some (ODict d0) →
     reaches (tool_registry self) graph max_steps k
       (entry_frame graph rid gid h d0) f →
     f_state f ≠ init ∧ f_heap f !! init = h !! init) ∧
  (∀ self' h' o,
     run_graph self h rid gid init max_steps = (self', h', o) →
     h' !! init = h !! init).
Proof.
  intros Hreg. split.
  - intros graph d0 k f Hg Hi Hr.
    assert (alloc h ≠ init) as Hne by (by apply alloc_ne; rewrite Hi).
    destruct (reaches_spares _ _ _ init _ _ _ Hreg Hr) as [Hstate Hheap].
    + simpl. rewrite lookup_insert_ne by done. by rewrite Hi.
    + done.
    + split; [done|]. rewrite Hheap. simpl. by rewrite lookup_insert_ne.
  - intros self' h' o. unfold run_graph.
    destruct (graphs self !! gid) as [graph|]; [|by intros [= <- <- <-]].
    destruct (h !! init) as [[d0|]|] eqn:Hi; [|by intros [= <- <- <-]..].
    assert (alloc h ≠ init) as Hne by (by apply alloc_ne; rewrite Hi).
    pose proof (while_loop_spares (tool_registry self) graph max_steps init
                  Hreg (Z.to_nat max_steps)
                  (entry_frame graph rid gid h d0)) as Hloop.
    simpl in Hloop. rewrite lookup_insert_ne in Hloop by done.
    rewrite Hi in Hloop. specialize (Hloop ltac:(by eexists) Hne).
    destruct (while_loop _ _ _ _ _); intros [= <- <- <-]; by rewrite ?Hloop.
Qed.

Lemma loop_tool_spares l0 : tool_spares l0 Examples.loop_tool.
Proof.
  intros h s Hl0 Hne. unfold Examples.loop_tool.
  destruct (h !! s) as [[d|]|]; simpl; [|done..].
  destruct (d !! "c") as [[]|]; simpl; try done;
    (split; [by rewrite lookup_insert_ne|congruence]).
Qed.

Lemma run_graph_works_on_a_copy_witness :
  Examples.loop_run.1.2 !! 1%positive = Examples.empty_state !! 1%positive.
Proof.
  destruct (run_graph_works_on_a_copy Examples.loop_engine
              Examples.empty_state "run-1" "graph-1" 1%positive 10)
    as [_ Hrun].
  - intros n t Ht. simpl in Ht.
    apply lookup_insert_Some in Ht as [[_ <-]|[_ Ht]];
      [apply loop_tool_spares|by rewrite lookup_empty in Ht].
  - apply (Hrun Examples.loop_run.1.1 Examples.loop_run.1.2
             Examples.loop_run.2).
    unfold Examples.loop_run. by destruct run_graph as [[??]?].
Defined.

(** * More of the engine *)

(** ** The run store *)

(** X1. Whatever a run gives, the node registry and the graph store are
    as before and so is every run stored under another identifier; a
    record is stored under the run identifier exactly when one is
    returned, and it carries that identifier and the identifier of the
    graph asked for. *)
Theorem run_graph_store_frame self h rid gid init max_steps self' h' o :
  run_graph self h rid gid init max_steps = (self', h', o) →
  tool_registry self' = tool_registry self ∧
  graphs self' = graphs self ∧
  (∀ i, i ≠ rid → get_run self' i = get_run self i) ∧
  (∀ r, o = Return r →
        get_run self' rid = Some r ∧ run_id r = rid ∧ run_graph_id r = gid) ∧
  (∀ e, o = Raise e → get_run self' rid = get_run self rid).
Proof.
  intros Hrun. destruct o as [r|e|].
  - destruct (run_graph_log _ _ _ _ _ _ _ _ _ Hrun)
      as (k & graph & d0 & f & _ & _ & Hr & -> & _ & _ & _ & ->).
    destruct (reaches_ids _ _ _ _ _ _ Hr) as [Hrid Hgid].
    unfold get_run. simpl. split_and!; try done.
    + intros i Hi. by rewrite lookup_insert_ne.
    + intros r [= <-]. by rewrite lookup_insert_eq.
  - apply run_graph_Raise_engine in Hrun as ->. split_and!; done.
  - pose proof (run_graph_total self h rid gid init max_steps) as Ht.
    by rewrite Hrun in Ht.
Qed.

Lemma run_graph_store_frame_witness :
  get_run Examples.loop_run.1.1 "run-0" = None.
Proof.
  destruct (run_graph_store_frame Examples.loop_engine Examples.empty_state
              "run-1" "graph-1" 1%positive 10 Examples.loop_run.1.1
              Examples.loop_run.1.2 Examples.loop_run.2)
    as (_ & _ & Hother & _).
  - unfold Examples.loop_run. by destruct run_graph as [[??]?].
  - by rewrite Hother.
Defined.

(** ** A ceiling of zero *)

(** X2. With a ceiling of zero or less no node is invoked, whether or not
    the start node has an implementation: the run returns and stores a
    record with an empty log whose final state is the empty mapping, not
    the initial state, and the store only gains the copy of the initial
    state. *)
Theorem run_graph_no_steps self h rid gid init max_steps graph d0 :
  graphs self !! gid = Some graph →
  h !! init = Some (ODict d0) →
  max_steps ≤ 0 →
  run_graph self h rid gid init max_steps
  = (persisted self rid (new_RunRecord rid gid),
     <[alloc h := ODict d0]> h,
     Return (new_RunRecord rid gid)) ∧
  log (new_RunRecord rid gid) = [] ∧
  current_state (new_RunRecord rid gid) = ∅.
Proof.
  intros Hg Hi Hmax. split; [|done].
  apply (run_graph_Done self h rid gid init max_steps graph d0 Hg Hi 0
           (entry_frame graph rid gid h d0)); [constructor|].
  unfold loop_cond. simpl. apply Z.ltb_ge. lia.
Qed.

Lemma run_graph_no_steps_witness :
  run_graph Examples.A_only_engine MoreExamples.code_state "run-1" "graph-1"
    1%positive 0
  = (persisted Examples.A_only_engine "run-1"
       (new_RunRecord "run-1" "graph-1"),
     <[alloc MoreExamples.code_state :=
         ODict {["code" := VStr "print(1)  # TODO"]}]>
       MoreExamples.code_state,
     Return (new_RunRecord "run-1" "graph-1")).
Proof.
  apply (run_graph_no_steps Examples.A_only_engine MoreExamples.code_state
           "run-1" "graph-1" 1%positive 0 Examples.AB_graph
           {["code" := VStr "print(1)  # TODO"]}).
  - vm_compute; reflexivity.
  - vm_compute; reflexivity.
  - lia.
Defined.

(** ** The record and its log *)

Section Record.

Context (reg : gmap string ToolFunc) (graph : GraphDefinition)
        (max_steps : Z).

(** The final state is the last snapshot, every logged node is
    registered, each step leads to the next, and only the last step can
    have asked for a stop. *)
Lemma reaches_record k f f' :
  reaches reg graph max_steps k f f' →
  ∃ es,
    log (f_run_record f') = log (f_run_record f) ++ es ∧
    length es = k ∧
    (∀ e, last es = Some e → current_state (f_run_record f')
                             = state_snapshot e) ∧
    (∀ e, head es = Some e → f_current_node f = VStr (node e)) ∧
    (∀ e, e ∈ es → is_Some (reg !! node e)) ∧
    (∀ i e e', es !! i = Some e → es !! S i = Some e' →
               leads_to graph e (node e')) ∧
    (∀ e n', last es = Some e → f_current_node f' = VStr n' →
             leads_to graph e n') ∧
    (∀ i e e' h0, es !! i = Some e → es !! S i = Some e' →
                  is_ref (get (state_snapshot e) "_stop") = false →
                  truthy h0 (get (state_snapshot e) "_stop") = false).
Proof.
  induction 1 as [f|k f f1 f2 Hc Hb Hr
                    (es & Hlog & Hlen & Hlast & Hhead & Hreg & Hadj & Hnext
                     & Hstop)].
  - exists []. rewrite app_nil_r. split_and!; try done.
    intros e He. by apply elem_of_nil in He.
  - destruct (loop_body_Next _ _ _ _ Hb)
      as (n & tool & h1 & s1 & d1 & Hcur & Hget & Htool & Hs1 & Hst & Hdec
          & Hstep & Hrec).
    set (e1 := {| step_number := f_step_number f; node := n;
                  state_snapshot := d1 |}).
    assert (∀ n', f_current_node f1 = VStr n' → leads_to graph e1 n')
      as Hlead.
    { intros n' Hn'. unfold decide_next, pop in Hdec.
      unfold leads_to. simpl.
      destruct (truthy h1 (get d1 "_stop")).
      { injection Hdec as _ Hd. congruence. }
      destruct (d1 !! "_next_node") as [v|] eqn:Hv; simpl in Hdec.
      - destruct v; simpl in *; injection Hdec as _ Hd;
          try congruence.
        rewrite Hn' in Hd. unfold edges_get in Hd.
        destruct (edges graph !! n) as [[m|]|]; congruence.
      - injection Hdec as _ Hd. rewrite Hn' in Hd. unfold edges_get in Hd.
        destruct (edges graph !! n) as [[m|]|]; congruence. }
    assert (f_current_node f1 ≠ VNone →
            ∀ h0, is_ref (get d1 "_stop") = false →
                  truthy h0 (get d1 "_stop") = false) as Hstop1.
    { intros Hne h0 Href. unfold decide_next in Hdec.
      destruct (truthy h1 (get d1 "_stop")) eqn:Ht.
      - injection Hdec as _ Hd. congruence.
      - by destruct (get d1 "_stop"). }
    exists (e1 :: es). split_and!.
    + rewrite Hlog, Hrec. simpl. by rewrite <- app_assoc.
    + simpl. by rewrite Hlen.
    + intros e He. destruct es as [|e2 es'].
      * simpl in He. injection He as <-. simpl in Hlen. subst k.
        inversion Hr; subst. by rewrite Hrec.
      * by apply Hlast.
    + intros e [= <-]. done.
    + intros e [->|He]%elem_of_cons; [by exists tool|by apply Hreg].
    + intros [|i] e e' He He'; simpl in He, He'.
      * injection He as <-. apply Hlead. apply Hhead.
        by destruct es.
      * by apply (Hadj i).
    + intros e n' He Hn'. destruct es as [|e2 es'].
      * simpl in He. injection He as <-. simpl in Hlen. subst k.
        inversion Hr; subst. by apply Hlead.
      * by apply Hnext.
    + intros [|i] e e' h0 He He' Href; simpl in He, He'.
      * injection He as <-. apply Hstop1; [|done].
        destruct es as [|e2 es']; [done|]. simpl in Hlen. subst k.
        inversion Hr as [|? ? ? ? Hc1]; subst.
        by apply loop_cond_true in Hc1 as [? _].
      * by apply (Hstop i e e').
Qed.

End Record.

Lemma triple_eta {A B C : Type} (x : A * B * C) : x = (x.1.1, x.1.2, x.2).
Proof. by destruct x as [[??]?]. Qed.

(** The example run of the loop node returns a record. *)
Lemma loop_run_returns :
  ∃ r, Examples.loop_run.2 = Return r ∧
       run_graph Examples.loop_engine Examples.empty_state "run-1" "graph-1"
         1%positive 10
       = (Examples.loop_run.1.1, Examples.loop_run.1.2, Return r).
Proof.
  assert (∃ r, Examples.loop_run.2 = Return r) as [r Hr]
    by (vm_compute; eauto).
  exists r. split; [done|]. rewrite <- Hr. apply triple_eta.
Qed.

(** What a returned record is made of, read off the frames of its run. *)
Lemma run_graph_record self h rid gid init max_steps self' h' r :
  run_graph self h rid gid init max_steps = (self', h', Return r) →
  ∃ graph,
    graphs self !! gid = Some graph ∧
    (∀ e, last (log r) = Some e → current_state r = state_snapshot e) ∧
    (log r = [] → current_state r = ∅) ∧
    (∀ e, head (log r) = Some e → node e = start_node graph) ∧
    (∀ e, e ∈ log r → is_Some (tool_registry self !! node e)) ∧
    (∀ i e e', log r !! i = Some e → log r !! S i = Some e' →
               leads_to graph e (node e')) ∧
    (∀ i e e' h0, log r !! i = Some e → log r !! S i = Some e' →
                  is_ref (get (state_snapshot e) "_stop") = false →
                  truthy h0 (get (state_snapshot e) "_stop") = false).
Proof.
  intros Hrun.
  destruct (run_graph_log _ _ _ _ _ _ _ _ _ Hrun)
    as (k & graph & d0 & f & Hg & _ & Hr & -> & _ & _ & _ & _).
  destruct (reaches_record _ _ _ _ _ _ Hr)
    as (es & Hlog & Hlen & Hlast & Hhead & Hreg & Hadj & _ & Hstop).
  simpl in Hlog. rewrite Hlog. exists graph. split_and!; try done.
  - intros ->. simpl in Hlen. subst k. by inversion Hr; subst.
  - intros e He. specialize (Hhead e He). simpl in Hhead. congruence.
Qed.

(** X3. The final state of a returned record is the snapshot of its last
    log entry, and the empty mapping when the log is empty. *)
Theorem current_state_is_last_snapshot
    self h rid gid init max_steps self' h' r :
  run_graph self h rid gid init max_steps = (self', h', Return r) →
  current_state r
  = match last (log r) with Some e => state_snapshot e | None => ∅ end.
Proof.
  intros Hrun.
  destruct (run_graph_record _ _ _ _ _ _ _ _ _ Hrun)
    as (graph & _ & Hlast & Hnil & _).
  destruct (last (log r)) as [e|] eqn:He; [by apply Hlast|].
  apply Hnil. by apply last_None.
Qed.

Lemma current_state_is_last_snapshot_witness :
  ∃ r, Examples.loop_run.2 = Return r ∧
       current_state r
       = match last (log r) with Some e => state_snapshot e | None => ∅ end.
Proof.
  destruct loop_run_returns as (r & Hret & Hr). exists r. split.
  - done.
  - exact (current_state_is_last_snapshot _ _ _ _ _ _ _ _ _ Hr).
Defined.

(** X4. The log of a returned record starts at the start node of the
    graph, and every node in it has a registered implementation. *)
Theorem log_starts_at_start_node
    self h rid gid init max_steps self' h' r :
  run_graph self h rid gid init max_steps = (self', h', Return r) →
  ∃ graph,
    graphs self !! gid = Some graph ∧
    (∀ e, head (log r) = Some e → node e = start_node graph) ∧
    (∀ e, e ∈ log r → is_Some (tool_registry self !! node e)).
Proof.
  intros Hrun.
  destruct (run_graph_record _ _ _ _ _ _ _ _ _ Hrun)
    as (graph & Hg & _ & _ & Hhead & Hreg & _).
  by exists graph.
Qed.

Lemma log_starts_at_start_node_witness :
  ∃ r graph, Examples.loop_run.2 = Return r ∧
             graphs Examples.loop_engine !! "graph-1" = Some graph ∧
             ∀ e, head (log r) = Some e → node e = start_node graph.
Proof.
  destruct loop_run_returns as (r & Hret & Hr).
  destruct (log_starts_at_start_node _ _ _ _ _ _ _ _ _ Hr)
    as (graph & Hg & Hhead & _).
  by exists r, graph.
Defined.

(** X5. Every transition in the log of a returned record follows from
    the snapshot before it: the snapshot names the next logged node in
    ["_next_node"], or it holds no name there (no key, or [None]) and the
    static edge of the logged node leads to the next one; and a stop flag
    in that snapshot, unless it is a list or dictionary, is not truthy. *)
Theorem log_transitions_follow_snapshots
    self h rid gid init max_steps self' h' r :
  run_graph self h rid gid init max_steps = (self', h', Return r) →
  ∃ graph,
    graphs self !! gid = Some graph ∧
    ∀ i e e', log r !! i = Some e → log r !! S i = Some e' →
      leads_to graph e (node e') ∧
      (is_ref (get (state_snapshot e) "_stop") = false →
       ∀ h0, truthy h0 (get (state_snapshot e) "_stop") = false).
Proof.
  intros Hrun.
  destruct (run_graph_record _ _ _ _ _ _ _ _ _ Hrun)
    as (graph & Hg & _ & _ & _ & _ & Hadj & Hstop).
  exists graph. split; [done|]. intros i e e' He He'. split.
  - by apply (Hadj i).
  - intros Href h0. by apply (Hstop i e e').
Qed.

Lemma log_transitions_follow_snapshots_witness :
  ∃ r graph, Examples.loop_run.2 = Return r ∧
    graphs Examples.loop_engine !! "graph-1" = Some graph ∧
    ∀ e e', log r !! 0%nat = Some e → log r !! 1%nat = Some e' →
            leads_to graph e (node e').
Proof.
  destruct loop_run_returns as (r & Hret & Hr).
  destruct (log_transitions_follow_snapshots _ _ _ _ _ _ _ _ _ Hr)
    as (graph & Hg & Hadj).
  exists r, graph. split_and!; [done..|].
  intros e e' He He'. by apply (Hadj 0%nat).
Defined.

(** ** The ceiling *)

Section Ceilings.

Context (reg : gmap string ToolFunc) (graph : GraphDefinition).


(** The steps of a run are steps under every higher ceiling. *)
Lemma reaches_raise m m' k f f' :
  m ≤ m' → reaches reg graph m k f f' → reaches reg graph m' k f f'.
Proof.
  intros Hm. induction 1 as [f|k f fa fb Hc Hb _ IH]; [constructor|].
  econstructor; [|done..].
  apply loop_cond_true in Hc as [Hcur Hstep].
  apply loop_cond_true. split; [done|lia].
Qed.


End Ceilings.



(** X7. A run that halts before its ceiling does not depend on it: when
    a run with ceiling [m] returns a record with fewer than [m] log
    entries, the run with any higher ceiling returns the same record and
    leaves the same engine and store. *)
Theorem halted_run_ignores_ceiling self h rid gid init m self' h' r :
  run_graph self h rid gid init m = (self', h', Return r) →
  Z.of_nat (length (log r)) < m →
  ∀ m', m ≤ m' →
    run_graph self h rid gid init m' = (self', h', Return r).
Proof.
  intros Hrun Hlen m' Hm.
  destruct (run_graph_Return_inv _ _ _ _ _ _ _ _ _ Hrun)
    as (graph & d0 & Hg & Hi).
  destruct (run_graph_Return _ _ _ _ _ _ _ _ Hg Hi _ _ _ Hrun)
    as (k & f & Hr & Hc & -> & -> & ->).
  apply (run_graph_Done self h rid gid init m' graph d0 Hg Hi k f).
  - by apply (reaches_raise _ _ m).
  - pose proof (reaches_step_number _ _ _ _ _ _ Hr) as Hstep.
    destruct (reaches_log _ _ _ _ _ _ Hr) as (es & Hlog & Hk & _).
    simpl in Hstep, Hlog. rewrite Hlog in Hlen.
    unfold loop_cond in *. apply andb_false_iff in Hc as [Hc|Hc].
    + by rewrite Hc.
    + apply Z.ltb_ge in Hc. lia.
Qed.

Lemma halted_run_ignores_ceiling_witness :
  ∃ r, run_graph Examples.loop_engine Examples.empty_state "run-1"
         "graph-1" 1%positive 100
       = (Examples.loop_run.1.1, Examples.loop_run.1.2, Return r).
Proof.
  destruct loop_run_returns as (r & Hret & Hr). exists r.
  apply (halted_run_ignores_ceiling _ _ _ _ _ 10 _ _ _ Hr); [|lia].
  assert (match Examples.loop_run.2 with
          | Return r => length (log r)
          | _ => 0%nat
          end = 3%nat) as H3 by (vm_compute; reflexivity).
  rewrite Hret in H3. rewrite H3. lia.
Defined.

(** ** Exceptions during a run *)

(** X8. When a node raises, at any step of a run, [run_graph] raises the
    node's exception: the engine is as before, so the entries logged so
    far are dropped and nothing is stored, and the store is as the node
    left it. *)
Theorem run_graph_node_raises
    self h rid gid init max_steps graph d0 k f n tool h1 :
  graphs self !! gid = Some graph →
  h !! init = Some (ODict d0) →
  reaches (tool_registry self) graph max_steps k
    (entry_frame graph rid gid h d0) f →
  loop_cond max_steps f = true →
  registry_get (tool_registry self) (f_current_node f) = Found n tool →
  tool (f_heap f) (f_state f) = (h1, Raises) →
  run_graph self h rid gid init max_steps = (self, h1, Raise NodeError) ∧
  length (log (f_run_record f)) = k.
Proof.
  intros Hg Hi Hr Hc Hreg Htool. split.
  - eapply run_graph_Throw; [done..|].
    unfold loop_body. by rewrite Hreg, Htool.
  - destruct (reaches_log _ _ _ _ _ _ Hr) as (es & -> & Hlen & _). done.
Qed.

Lemma run_graph_node_raises_witness :
  run_graph MoreExamples.boom_engine Examples.empty_state "run-1" "graph-1"
    1%positive 100
  = (MoreExamples.boom_engine, f_heap Examples.before_B, Raise NodeError).
Proof.
  apply (run_graph_node_raises MoreExamples.boom_engine Examples.empty_state
           "run-1" "graph-1" 1%positive 100 Examples.AB_graph ∅ 1
           Examples.before_B "B" MoreExamples.boom_tool
           (f_heap Examples.before_B)).
  - vm_compute; reflexivity.
  - vm_compute; reflexivity.
  - eapply reaches_S; [| |apply reaches_O]; vm_compute; reflexivity.
  - vm_compute; reflexivity.
  - reflexivity.
  - reflexivity.
Defined.

(** X9. A dynamic successor is not checked when it is chosen. When a
    node's returned state, not flagged as stopped, names in
    ["_next_node"] a value that is not a registered node name, the step is
    logged and the key popped; only if the ceiling leaves room for another
    step does the run fail, with the no-tool [ValueError] for that value,
    or with a [TypeError] when the value is a list or a dictionary. *)
Theorem dynamic_successor_fails_lazily
    self h rid gid init max_steps graph d0 k f n tool h1 s1 d1 v :
  graphs self !! gid = Some graph →
  h !! init = Some (ODict d0) →
  reaches (tool_registry self) graph max_steps k
    (entry_frame graph rid gid h d0) f →
  registry_get (tool_registry self) (f_current_node f) = Found n tool →
  tool (f_heap f) (f_state f) = (h1, Returns s1) →
  h1 !! s1 = Some (ODict d1) →
  truthy h1 (get d1 "_stop") = false →
  d1 !! "_next_node" = Some v →
  v ≠ VNone →
  Z.of_nat k + 1 < max_steps →
  (registry_get (tool_registry self) v = Missing →
   run_graph self h rid gid init max_steps
   = (self, <[s1 := ODict (delete "_next_node" d1)]> h1,
      Raise (ValueError v))) ∧
  (registry_get (tool_registry self) v = Unhashable →
   run_graph self h rid gid init max_steps
   = (self, <[s1 := ODict (delete "_next_node" d1)]> h1, Raise TypeError)).
Proof.
  intros Hg Hi Hr Hreg Htool Hs1 Hstop Hnext Hv Hmax.
  pose proof (reaches_step_number _ _ _ _ _ _ Hr) as Hstep. simpl in Hstep.
  assert (loop_cond max_steps f = true) as Hc.
  { apply loop_cond_true. apply registry_get_Found in Hreg as [-> _].
    split; [done|lia]. }
  pose proof (loop_body_run _ graph _ _ _ _ _ _ Hreg Htool Hs1) as Hb.
  assert (decide_next graph h1 s1 d1 n
          = (<[s1 := ODict (delete "_next_node" d1)]> h1, v)) as Hdec.
  { unfold decide_next, pop. rewrite Hstop, Hnext. simpl.
    by destruct v. }
  rewrite Hdec in Hb. simpl in Hb.
  match type of Hb with _ = Next ?x => set (f1 := x) in Hb end.
  pose proof (reaches_snoc _ _ _ _ _ _ _ Hr Hc Hb) as Hr1.
  assert (loop_cond max_steps f1 = true) as Hc1.
  { apply loop_cond_true. simpl. split; [done|lia]. }
  split; intros Hget.
  - eapply run_graph_Throw; [done..|].
    unfold loop_body. simpl. by rewrite Hget.
  - eapply run_graph_Throw; [done..|].
    unfold loop_body. simpl. by rewrite Hget.
Qed.

Lemma dynamic_successor_fails_lazily_witness :
  run_graph MoreExamples.ghost_engine Examples.empty_state "run-1" "graph-1"
    1%positive 100
  = (MoreExamples.ghost_engine,
     <[2%positive := ODict ∅]> Examples.empty_state,
     Raise (ValueError (VStr "ghost"))).
Proof.
  destruct (dynamic_successor_fails_lazily MoreExamples.ghost_engine
              Examples.empty_state "run-1" "graph-1" 1%positive 100
              Examples.AB_graph ∅ 0
              (MoreExamples.entry Examples.empty_state ∅)
              "A" MoreExamples.ghost_tool
              (<[2%positive := ODict {["_next_node" := VStr "ghost"]}]>
                 Examples.empty_state)
              2%positive {["_next_node" := VStr "ghost"]} (VStr "ghost"))
    as [Hmissing _].
  - vm_compute; reflexivity.
  - vm_compute; reflexivity.
  - apply reaches_O.
  - reflexivity.
  - vm_compute; reflexivity.
  - vm_compute; reflexivity.
  - vm_compute; reflexivity.
  - vm_compute; reflexivity.
  - done.
  - lia.
  - rewrite Hmissing by (vm_compute; reflexivity).
    f_equal.
Defined.

(** ** Registering tools and creating graphs *)

(** X10. [register_tool] binds the name to the function, replaces an
    earlier binding of the same name (the last registration wins), and
    leaves every other name, the graphs and the runs as they are. *)
Theorem register_tool_last_write_wins self name f g :
  registry_get (tool_registry (register_tool self name f)) (VStr name)
  = Found name f ∧
  (∀ k, k ≠ VStr name →
        registry_get (tool_registry (register_tool self name f)) k
        = registry_get (tool_registry self) k) ∧
  register_tool (register_tool self name f) name g
  = register_tool self name g ∧
  graphs (register_tool self name f) = graphs self ∧
  runs (register_tool self name f) = runs self.
Proof.
  split_and!; try done.
  - simpl. by rewrite lookup_insert_eq.
  - intros [| | | |m|] Hk; simpl; try done.
    rewrite lookup_insert_ne by congruence. done.
  - unfold register_tool. simpl. by rewrite insert_insert_eq.
Qed.

Section RegisterFrame.

Context (reg : gmap string ToolFunc) (graph : GraphDefinition)
        (max_steps : Z) (name : string) (t : ToolFunc).

(** Steps that do not visit [name] do not look at its binding. *)
Lemma reaches_register k f f' :
  reaches reg graph max_steps k f f' →
  (∀ e, e ∈ drop (length (log (f_run_record f))) (log (f_run_record f')) →
        node e ≠ name) →
  reaches (<[name := t]> reg) graph max_steps k f f'.
Proof.
  induction 1 as [f|k f f1 f2 Hc Hb Hr IH]; intros Hlog; [constructor|].
  destruct (reaches_log _ _ _ _ _ _ Hr) as (es & Hes & _).
  destruct (loop_body_Next _ _ _ _ Hb)
    as (n & tool & h1 & s1 & d1 & Hcur & Hget & Htool & Hs1 & _ & _ & _
        & Hrec).
  rewrite Hes, Hrec in Hlog. simpl in Hlog.
  rewrite <- app_assoc, drop_app_length in Hlog.
  assert (n ≠ name) as Hn.
  { apply (Hlog {| step_number := f_step_number f; node := n;
                   state_snapshot := d1 |}). simpl. apply list_elem_of_here. }
  econstructor; [done| |].
  - unfold loop_body in *. rewrite Hcur in *. simpl in *.
    by rewrite lookup_insert_ne.
  - apply IH. intros e He. apply Hlog.
    rewrite Hes, Hrec in He. simpl in He.
    rewrite length_app in He. simpl in He.
    rewrite <- app_assoc in He.
    replace (length (log (f_run_record f)) + 1)%nat
      with (length (log (f_run_record f) ++
                    [{| step_number := f_step_number f; node := n;
                        state_snapshot := d1 |}]))
      in He by (rewrite length_app; simpl; lia).
    rewrite app_assoc, drop_app_length in He.
    simpl. by apply list_elem_of_further.
Qed.

End RegisterFrame.

(** X11. Registering a tool, new or in place of another, does not
    change a run that never visits its name: a run that returned a record
    with no log entry for [name] returns the same record, and leaves the
    same store, on the engine with [name] bound to any function. *)
Theorem register_tool_keeps_other_runs
    self h rid gid init max_steps self' h' r name t :
  run_graph self h rid gid init max_steps = (self', h', Return r) →
  (∀ e, e ∈ log r → node e ≠ name) →
  run_graph (register_tool self name t) h rid gid init max_steps
  = (register_tool self' name t, h', Return r).
Proof.
  intros Hrun Hlog.
  destruct (run_graph_Return_inv _ _ _ _ _ _ _ _ _ Hrun)
    as (graph & d0 & Hg & Hi).
  destruct (run_graph_Return _ _ _ _ _ _ _ _ Hg Hi _ _ _ Hrun)
    as (k & f & Hr & Hc & -> & -> & ->).
  apply (run_graph_Done (register_tool self name t) h rid gid init
           max_steps graph d0 Hg Hi k f); [|done].
  simpl. apply reaches_register; [done|]. simpl. by rewrite drop_0.
Qed.

Lemma register_tool_keeps_other_runs_witness :
  ∃ r, run_graph (register_tool Examples.loop_engine "other"
                    Examples.pass_tool)
         Examples.empty_state "run-1" "graph-1" 1%positive 10
       = (register_tool Examples.loop_run.1.1 "other" Examples.pass_tool,
          Examples.loop_run.1.2, Return r).
Proof.
  destruct loop_run_returns as (r & Hret & Hr). exists r.
  apply (register_tool_keeps_other_runs _ _ _ _ _ _ _ _ _ _ _ Hr).
  assert (match Examples.loop_run.2 with
          | Return r => node <$> log r
          | _ => []
          end = ["loop"; "loop"; "loop"]) as Hnodes
    by (vm_compute; reflexivity).
  rewrite Hret in Hnodes.
  intros e He Hn.
  assert (node e ∈ node <$> log r) as Hin by (by apply list_elem_of_fmap_2).
  rewrite Hnodes, Hn in Hin.
  by repeat (apply elem_of_cons in Hin as [Hin|Hin]; [done|]);
    apply elem_of_nil in Hin.
Defined.

(** X12. [create_graph] stores the request as it is under the new
    identifier, returns that identifier and leaves the other graphs
    alone; nothing is validated. A request whose start node has no
    registered implementation (it need not even be among the request's
    nodes) is accepted, and the defect shows only when the graph is run:
    with a ceiling of at least one, [run_graph] raises the no-tool
    [ValueError] for the start node before any node is invoked, and the
    store only gains the copy of the initial state. *)
Theorem create_graph_validates_nothing
    self gid request h rid init max_steps d0 :
  tool_registry self !! req_start_node request = None →
  h !! init = Some (ODict d0) →
  0 < max_steps →
  (create_graph self gid request).2 = gid ∧
  graphs (create_graph self gid request).1 !! gid
  = Some {| graph_id := gid; nodes := req_nodes request;
            edges := req_edges request;
            start_node := req_start_node request |} ∧
  (∀ i, i ≠ gid →
        graphs (create_graph self gid request).1 !! i = graphs self !! i) ∧
  run_graph (create_graph self gid request).1 h rid gid init max_steps
  = ((create_graph self gid request).1, <[alloc h := ODict d0]> h,
     Raise (ValueError (VStr (req_start_node request)))).
Proof.
  intros Hreg Hi Hmax. split_and!.
  - done.
  - simpl. apply lookup_insert_eq.
  - intros i Hne. simpl. by rewrite lookup_insert_ne.
  - set (graph := {| graph_id := gid; nodes := req_nodes request;
                     edges := req_edges request;
                     start_node := req_start_node request |}).
    assert (graphs (create_graph self gid request).1 !! gid = Some graph)
      as Hg by (simpl; apply lookup_insert_eq).
    apply (run_graph_Throw _ h rid gid init max_steps graph d0 Hg Hi 0
             (entry_frame graph rid gid h d0)).
    + constructor.
    + apply loop_cond_true. simpl. split; [done|lia].
    + unfold loop_body. simpl. by rewrite Hreg.
Qed.

Lemma create_graph_validates_nothing_witness :
  run_graph (create_graph new_GraphEngine "graph-1"
               {| req_nodes := []; req_edges := ∅;
                  req_start_node := "nowhere" |}).1
    Examples.empty_state "run-1" "graph-1" 1%positive 100
  = ((create_graph new_GraphEngine "graph-1"
        {| req_nodes := []; req_edges := ∅;
           req_start_node := "nowhere" |}).1,
     <[alloc Examples.empty_state := ODict ∅]> Examples.empty_state,
     Raise (ValueError (VStr "nowhere"))).
Proof.
  apply (create_graph_validates_nothing new_GraphEngine "graph-1"
           {| req_nodes := []; req_edges := ∅;
              req_start_node := "nowhere" |}
           Examples.empty_state "run-1" 1%positive 100 ∅).
  - reflexivity.
  - vm_compute; reflexivity.
  - lia.
Defined.

(** ** Runs along the static edges *)

Section StaticPath.

Context (reg : gmap string ToolFunc) (graph : GraphDefinition)
        (max_steps : Z).

Lemma static_path_tail n rest :
  static_path graph (n :: rest) → static_path graph rest.
Proof. destruct rest as [|n' rest]; simpl; [done|]. by intros [_ ?]. Qed.

(** One step along the path: the node is invoked and logged, no control
    key comes up, and the static edge is taken. *)
Lemma on_path_step n rest t f :
  on_path (n :: rest) f →
  static_path graph (n :: rest) →
  reg !! n = Some t → control_free t →
  ∃ f1 d1,
    loop_body reg graph f = Next f1 ∧ on_path rest f1 ∧
    log (f_run_record f1)
    = log (f_run_record f) ++
      [ {| step_number := f_step_number f; node := n;
           state_snapshot := d1 |} ].
Proof.
  intros (Hcur & d & Hd & Hctl) Hpath Hreg Hfree.
  destruct (Hfree _ _ _ Hd Hctl)
    as (h1 & s1 & d1 & Htool & Hs1 & Hnext & Hstop).
  eexists _, d1. split; [|split].
  - eapply loop_body_run; [|done..]. rewrite Hcur. simpl. by rewrite Hreg.
  - unfold on_path, decide_next, pop. simpl. rewrite Hstop, Hnext. simpl.
    split.
    + destruct rest as [|n' rest]; simpl in Hpath; [done|].
      destruct Hpath as [Hedge _]. unfold edges_get. by rewrite Hedge.
    + exists d1. rewrite delete_id by done. split; [apply lookup_insert_eq|].
      split; [done|]. rewrite <- (delete_id d1 "_next_node") at 1 by done.
      by apply truthy_delete.
  - done.
Qed.

Lemma on_path_reaches (k : nat) path f :
  on_path path f →
  static_path graph path →
  (∀ n, n ∈ path → ∃ t, reg !! n = Some t ∧ control_free t) →
  (k ≤ length path)%nat →
  (k ≠ 0%nat → f_step_number f + Z.of_nat k ≤ max_steps) →
  ∃ f' es,
    reaches reg graph max_steps k f f' ∧ on_path (drop k path) f' ∧
    log (f_run_record f') = log (f_run_record f) ++ es ∧
    node <$> es = take k path.
Proof.
  revert path f. induction k as [|k IH]; intros path f Hon Hpath Htools Hk Hmax.
  - exists f, []. rewrite app_nil_r. split_and!; [constructor|done..].
  - destruct path as [|n rest]; [simpl in Hk; lia|].
    destruct (Htools n) as (t & Hreg & Hfree); [apply list_elem_of_here|].
    destruct (on_path_step n rest t f Hon Hpath Hreg Hfree)
      as (f1 & d1 & Hb & Hon1 & Hlog1).
    destruct (loop_body_Next _ _ _ _ Hb)
      as (?&?&?&?&?&?&?&?&?&?&?&Hstep&?).
    specialize (Hmax ltac:(done)).
    destruct (IH rest f1 Hon1 (static_path_tail _ _ Hpath))
      as (f' & es & Hr & Hon' & Hlog' & Hnodes).
    { intros m Hm. apply Htools. by apply list_elem_of_further. }
    { simpl in Hk. lia. }
    { lia. }
    exists f', ({| step_number := f_step_number f; node := n;
                   state_snapshot := d1 |} :: es).
    split_and!.
    + econstructor; [|done..]. apply loop_cond_true.
      destruct Hon as [-> _]. split; [done|lia].
    + done.
    + rewrite Hlog', Hlog1. by rewrite <- app_assoc.
    + simpl. by rewrite <- Hnodes.
Qed.

End StaticPath.

(** X13. Nodes that set no control key are visited along the static
    edges. When the nodes of a path that starts at the start node, follows
    the static edges and ends at a node without successor all return a
    state without control keys whenever they are handed one, a run from
    an initial state without control keys returns a record whose log
    names the nodes of the path in order, cut at the ceiling. *)
Theorem static_path_run self h rid gid init max_steps graph d0 path :
  graphs self !! gid = Some graph →
  h !! init = Some (ODict d0) →
  no_control h d0 →
  head path = Some (start_node graph) →
  static_path graph path →
  (∀ n, n ∈ path →
        ∃ t, tool_registry self !! n = Some t ∧ control_free t) →
  ∃ h' r,
    run_graph self h rid gid init max_steps
    = (persisted self rid r, h', Return r) ∧
    node <$> log r = take (Z.to_nat max_steps) path.
Proof.
  intros Hg Hi [Hnn Hstop] Hhead Hpath Htools.
  remember (length path `min` Z.to_nat max_steps)%nat as k eqn:Hk.
  destruct (on_path_reaches (tool_registry self) graph max_steps k path
              (entry_frame graph rid gid h d0))
    as (f & es & Hr & Hon & Hlog & Hnodes); try done.
  { split; simpl.
    - destruct path as [|n rest]; [done|]. simpl in Hhead. congruence.
    - exists d0. split; [apply lookup_insert_eq|].
      split; [done|]. by apply truthy_alloc. }
  { lia. }
  { simpl. lia. }
  pose proof (reaches_step_number _ _ _ _ _ _ Hr) as Hstep. simpl in Hstep.
  exists (f_heap f), (f_run_record f). split.
  - apply (run_graph_Done self h rid gid init max_steps graph d0 Hg Hi k f
             Hr).
    destruct (decide (k = length path)) as [Hlen|Hlen].
    + destruct Hon as [Hcur _]. rewrite Hlen, drop_all in Hcur.
      unfold loop_cond. by rewrite Hcur.
    + unfold loop_cond. apply andb_false_iff. right. apply Z.ltb_ge. lia.
  - simpl in Hlog. rewrite Hlog, Hnodes.
    destruct (decide (k = length path)) as [Hlen|Hlen].
    + rewrite Hlen, firstn_all. symmetry. apply take_ge. lia.
    + f_equal. lia.
Qed.

Lemma pass_tool_control_free : control_free Examples.pass_tool.
Proof. intros h s d Hs Hctl. by exists h, s, d. Qed.

Lemma static_path_run_witness :
  ∃ h' r,
    MoreExamples.pass_run 100
    = (persisted MoreExamples.pass_engine "run-1" r, h', Return r) ∧
    node <$> log r = ["A"; "B"].
Proof.
  destruct (static_path_run MoreExamples.pass_engine Examples.empty_state
              "run-1" "graph-1" 1%positive 100 Examples.AB_graph ∅
              ["A"; "B"])
    as (h' & r & Hrun & Hnodes).
  - vm_compute; reflexivity.
  - vm_compute; reflexivity.
  - split; vm_compute; reflexivity.
  - reflexivity.
  - split; vm_compute; reflexivity.
  - intros n Hn. exists Examples.pass_tool.
    split; [|apply pass_tool_control_free].
    apply elem_of_cons in Hn as [->|Hn]; [reflexivity|].
    apply elem_of_cons in Hn as [->|Hn]; [reflexivity|].
    by apply elem_of_nil in Hn.
  - exists h', r. split; [done|]. by rewrite Hnodes.
Defined.

(** * The endpoints of app/main.py *)

(** The example run of the loop node under the ceiling of the endpoint. *)
Lemma loop_run_under_100 r :
  Examples.loop_run.2 = Return r →
  run_graph Examples.loop_engine Examples.empty_state "run-1" "graph-1"
    1%positive 10
  = (Examples.loop_run.1.1, Examples.loop_run.1.2, Return r) →
  run_graph Examples.loop_engine Examples.empty_state "run-1" "graph-1"
    1%positive 100
  = (Examples.loop_run.1.1, Examples.loop_run.1.2, Return r).
Proof.
  intros Hret Hr.
  destruct (run_graph_Return_inv _ _ _ _ _ _ _ _ _ Hr)
    as (graph & d0 & Hg & Hi).
  destruct (run_graph_Return _ _ _ _ _ _ _ _ Hg Hi _ _ _ Hr)
    as (k & f & Hk & Hc & Hrec & Hheap & Hself).
  rewrite Hself, Hheap, Hrec.
  apply (run_graph_Done _ _ _ _ _ 100 graph d0 Hg Hi k f).
  - by apply (reaches_raise _ _ 10).
  - assert (match Examples.loop_run.2 with
            | Return r => length (log r)
            | _ => 0%nat
            end = 3%nat) as H3 by (vm_compute; reflexivity).
    rewrite Hret, Hrec in H3.
    pose proof (reaches_step_number _ _ _ _ _ _ Hk) as Hstep.
    destruct (reaches_log _ _ _ _ _ _ Hk) as (es & Hlog & Hlen & _).
    simpl in Hstep, Hlog. rewrite Hlog in H3.
    unfold loop_cond in *. apply andb_false_iff in Hc as [Hc|Hc].
    + by rewrite Hc.
    + apply Z.ltb_ge in Hc. lia.
Qed.

Lemma post_graph_run_unfold engine h rid cls request engine' h' o :
  run_graph engine h rid (rq_graph_id request) (rq_initial_state request)
    100 = (engine', h', o) →
  post_graph_run engine h rid cls request
  = (engine', h',
     match o with
     | Return run_record =>
         Ok200 {| rs_run_id := run_id run_record;
                  rs_final_state := current_state run_record;
                  rs_log := log run_record |}
     | Raise (KeyError _) => HTTPException 404 (Detail "Graph not found.")
     | Raise (ValueError v) => HTTPException 400 (DetailOf (ValueError v))
     | Raise TypeError => Passed TypeError
     | Raise NodeError =>
         match cls with
         | NodeKeyError => HTTPException 404 (Detail "Graph not found.")
         | NodeValueError str_e => HTTPException 400 (Detail str_e)
         | NodeOtherError => Passed NodeError
         end
     | Diverge => NoReply
     end).
Proof. unfold post_graph_run. by intros ->. Qed.

(** X14. [POST /graph/run] answers 404 "Graph not found." for an
    unknown graph and changes nothing; it answers 400 with the text of
    the no-tool [ValueError] when the run comes, after any number of
    steps, to a node without implementation; when a node raises, it
    answers 404 "Graph not found." for a [KeyError] of the node, 400 with
    the node's text for a [ValueError] of the node, and passes any other
    exception on; and whenever it answers with an [HTTPException] the
    engine is as before, so that every [GET /graph/state] answers as it
    did. *)
Theorem post_graph_run_errors engine h rid cls request :
  (graphs engine !! rq_graph_id request = None →
   post_graph_run engine h rid cls request
   = (engine, h, HTTPException 404 (Detail "Graph not found."))) ∧
  (∀ graph d0 k f,
     graphs engine !! rq_graph_id request = Some graph →
     h !! rq_initial_state request = Some (ODict d0) →
     reaches (tool_registry engine) graph 100 k
       (entry_frame graph rid (rq_graph_id request) h d0) f →
     loop_cond 100 f = true →
     registry_get (tool_registry engine) (f_current_node f) = Missing →
     post_graph_run engine h rid cls request
     = (engine, f_heap f,
        HTTPException 400 (DetailOf (ValueError (f_current_node f))))) ∧
  (∀ graph d0 k f n tool h1,
     graphs engine !! rq_graph_id request = Some graph →
     h !! rq_initial_state request = Some (ODict d0) →
     reaches (tool_registry engine) graph 100 k
       (entry_frame graph rid (rq_graph_id request) h d0) f →
     loop_cond 100 f = true →
     registry_get (tool_registry engine) (f_current_node f) = Found n tool →
     tool (f_heap f) (f_state f) = (h1, Raises) →
     post_graph_run engine h rid cls request
     = (engine, h1,
        match cls with
        | NodeKeyError => HTTPException 404 (Detail "Graph not found.")
        | NodeValueError str_e => HTTPException 400 (Detail str_e)
        | NodeOtherError => Passed NodeError
        end)) ∧
  (∀ engine' h' status d,
     post_graph_run engine h rid cls request
     = (engine', h', HTTPException status d) →
     engine' = engine ∧ ∀ i, get_state engine' i = get_state engine i).
Proof.
  split_and!.
  - intros Hg.
    apply (post_graph_run_unfold _ _ _ _ _ engine h
             (Raise (KeyError (rq_graph_id request)))).
    unfold run_graph. by rewrite Hg.
  - intros graph d0 k f Hg Hi Hr Hc Hreg.
    apply (post_graph_run_unfold _ _ _ _ _ engine (f_heap f)
             (Raise (ValueError (f_current_node f)))).
    eapply run_graph_Throw; [done..|]. unfold loop_body. by rewrite Hreg.
  - intros graph d0 k f n tool h1 Hg Hi Hr Hc Hreg Htool.
    apply (post_graph_run_unfold _ _ _ _ _ engine h1 (Raise NodeError)).
    eapply run_graph_Throw; [done..|].
    unfold loop_body. by rewrite Hreg, Htool.
  - intros engine' h' status d.
    destruct (run_graph engine h rid (rq_graph_id request)
                (rq_initial_state request) 100) as [[e1 h1] o] eqn:Hrun.
    rewrite (post_graph_run_unfold _ _ _ _ _ _ _ _ Hrun).
    intros [= <- <- Ho].
    destruct o as [r|e|]; [discriminate| |discriminate].
    apply run_graph_Raise_engine in Hrun as ->. done.
Qed.

(** X15. After [POST /graph/run] has answered with a body, a
    [GET /graph/state] for the run identifier of that body answers with
    the same state and the same log; the log has at most 100 entries; and
    the answers for all other run identifiers are as before. *)
Theorem post_graph_run_then_get_state
    engine h rid cls request engine' h' body :
  post_graph_run engine h rid cls request = (engine', h', Ok200 body) →
  rs_run_id body = rid ∧
  get_state engine' (rs_run_id body)
  = Ok200 {| st_run_id := rs_run_id body;
             st_current_state := rs_final_state body;
             st_log := rs_log body |} ∧
  (length (rs_log body) ≤ 100)%nat ∧
  (∀ i, i ≠ rid → get_state engine' i = get_state engine i).
Proof.
  destruct (run_graph engine h rid (rq_graph_id request)
              (rq_initial_state request) 100) as [[e1 h1] o] eqn:Hrun.
  rewrite (post_graph_run_unfold _ _ _ _ _ _ _ _ Hrun).
  intros [= <- <- Ho].
  destruct o as [r|[]|]; try discriminate; [|by destruct cls].
  injection Ho as <-. simpl.
  destruct (run_graph_log _ _ _ _ _ _ _ _ _ Hrun)
    as (k & graph & d0 & f & _ & _ & Hr & -> & Hlen & _ & Hk & ->).
  destruct (reaches_ids _ _ _ _ _ _ Hr) as [Hrid _]. simpl in Hrid.
  unfold get_state, get_run. simpl. split_and!.
  - done.
  - by rewrite Hrid, lookup_insert_eq.
  - lia.
  - intros i Hi. by rewrite lookup_insert_ne.
Qed.

Lemma post_graph_run_then_get_state_witness :
  ∃ body,
    (post_graph_run Examples.loop_engine Examples.empty_state "run-1"
       NodeOtherError
       {| rq_graph_id := "graph-1"; rq_initial_state := 1%positive |}).2
    = Ok200 body ∧
    rs_run_id body = "run-1".
Proof.
  destruct loop_run_returns as (r & Hret & Hr).
  pose proof (post_graph_run_unfold Examples.loop_engine
                Examples.empty_state "run-1" NodeOtherError
                {| rq_graph_id := "graph-1"; rq_initial_state := 1%positive |}
                _ _ _
                (loop_run_under_100 r Hret Hr)) as Hpost.
  eexists. split; [by rewrite Hpost|].
  by destruct (post_graph_run_then_get_state _ _ _ _ _ _ _ _ Hpost)
    as (Hid & _).
Defined.

Lemma post_graph_run_errors_witness :
  post_graph_run MoreExamples.boom_engine Examples.empty_state "run-1"
    NodeKeyError
    {| rq_graph_id := "graph-1"; rq_initial_state := 1%positive |}
  = (MoreExamples.boom_engine, f_heap Examples.before_B,
     HTTPException 404 (Detail "Graph not found.")).
Proof.
  destruct (post_graph_run_errors MoreExamples.boom_engine
              Examples.empty_state "run-1" NodeKeyError
              {| rq_graph_id := "graph-1"; rq_initial_state := 1%positive |})
    as (_ & _ & Hnode & _).
  apply (Hnode Examples.AB_graph ∅ 1%nat Examples.before_B "B"
           MoreExamples.boom_tool (f_heap Examples.before_B)).
  - vm_compute; reflexivity.
  - vm_compute; reflexivity.
  - eapply reaches_S; [| |apply reaches_O]; vm_compute; reflexivity.
  - vm_compute; reflexivity.
  - reflexivity.
  - reflexivity.
Defined.

(** * The caller's mapping and nodes that allocate *)

(** X16. The caller's mapping survives nodes that allocate. With nodes
    that, in a store where the caller's mapping exists, write that mapping
    or return it only when it is the state they were handed, whatever new
    objects they create, the object at the caller's reference is after
    every run (record returned or exception raised) the object it was
    before. *)
Theorem run_graph_keeps_initial_state_alloc
    self h rid gid init max_steps self' h' o :
  (∀ n t, tool_registry self !! n = Some t → tool_spares init t) →
  run_graph self h rid gid init max_steps = (self', h', o) →
  h' !! init = h !! init.
Proof.
  intros Hreg. unfold run_graph.
  destruct (graphs self !! gid) as [graph|]; [|by intros [= <- <- <-]].
  destruct (h !! init) as [[d0|]|] eqn:Hi; [|by intros [= <- <- <-]..].
  assert (alloc h ≠ init) as Hne by (by apply alloc_ne; rewrite Hi).
  pose proof (while_loop_spares (tool_registry self) graph max_steps init
                Hreg (Z.to_nat max_steps) (entry_frame graph rid gid h d0))
    as Hloop.
  simpl in Hloop. rewrite lookup_insert_ne in Hloop by done.
  rewrite Hi in Hloop. specialize (Hloop ltac:(by eexists) Hne).
  destruct (while_loop _ _ _ _ _); intros [= <- <- <-]; by rewrite ?Hloop.
Qed.

(** * app/workflows.py: detect_issues_tool *)

Lemma issues_for_length p t g e : (length (issues_for p t g e) ≤ 4)%nat.
Proof. destruct p, t, g, e; simpl; lia. Qed.

Lemma issues_for_nil p t g e :
  issues_for p t g e = [] ↔
  p = false ∧ t = false ∧ g = false ∧ e = false.
Proof. destruct p, t, g, e; simpl; intuition discriminate. Qed.

(** X17. [detect_issues_tool] on a state whose ["code"] is a string, or
    missing (which reads as the empty string), does not raise and returns
    the state it was handed. It binds ["issues"] to a new list of
    messages and ["issue_count"] to the length of that list, which is at
    most 4; every other key of the state, the control keys among them, and
    every other object of the store is as before. The list is empty
    exactly when the code contains none of the five patterns. *)
Theorem detect_issues_tool_effect h s d c :
  h !! s = Some (ODict d) →
  default (VStr "") (d !! "code") = VStr c →
  ∃ h' d' issues,
    detect_issues_tool h s = (h', Returns s) ∧
    h' !! s = Some (ODict d') ∧
    d' !! "issues" = Some (VRef (alloc h)) ∧
    h !! alloc h = None ∧
    h' !! alloc h = Some (OList (VStr <$> issues)) ∧
    d' !! "issue_count" = Some (VInt (Z.of_nat (length issues))) ∧
    (length issues ≤ 4)%nat ∧
    (∀ k, k ≠ "issues" → k ≠ "issue_count" → d' !! k = d !! k) ∧
    (∀ l, l ≠ s → l ≠ alloc h → h' !! l = h !! l) ∧
    (issues = [] ↔
     is_substring "print(" c = false ∧ is_substring "TODO" c = false ∧
     is_substring "global " c = false ∧
     is_substring "except:" c = false ∧
     is_substring "except Exception:" c = false).
Proof.
  intros Hs Hcode.
  assert (alloc h ≠ s) as Hne by (apply alloc_ne; by rewrite Hs).
  unfold detect_issues_tool. rewrite Hs, Hcode. simpl.
  eexists _, _, _. split_and!; [reflexivity|..].
  - apply lookup_insert_eq.
  - rewrite lookup_insert_ne by done. apply lookup_insert_eq.
  - apply alloc_fresh.
  - rewrite lookup_insert_ne by done. apply lookup_insert_eq.
  - apply lookup_insert_eq.
  - apply issues_for_length.
  - intros k Hk1 Hk2. by rewrite !lookup_insert_ne.
  - intros l Hl1 Hl2. by rewrite !lookup_insert_ne.
  - rewrite issues_for_nil, orb_false_iff. tauto.
Qed.

Lemma detect_issues_tool_effect_witness :
  ∃ h',
    detect_issues_tool MoreExamples.code_state 1%positive
    = (h', Returns 1%positive) ∧
    h' !! 2%positive
    = Some (OList [VStr "Uses print() statements; consider logging instead.";
                   VStr "Contains TODO comments; consider resolving them."]).
Proof.
  destruct (detect_issues_tool_effect MoreExamples.code_state 1%positive
              {["code" := VStr "print(1)  # TODO"]} "print(1)  # TODO")
    as (h' & d' & issues & Htool & _).
  - vm_compute; reflexivity.
  - vm_compute; reflexivity.
  - exists h'. split; [done|].
    assert ((detect_issues_tool MoreExamples.code_state 1%positive).1
              !! 2%positive
            = Some (OList
                      [VStr "Uses print() statements; consider logging instead.";
                       VStr "Contains TODO comments; consider resolving them."]))
      as H2 by (vm_compute; reflexivity).
    by rewrite Htool in H2.
Defined.

(** [detect_issues_tool] raises, and leaves the store as it is, when
    ["code"] is present but is neither a string nor a list nor a
    dictionary ([None], a Boolean, a number): such a value has no [in]. *)
Lemma detect_issues_tool_raises h s d v :
  h !! s = Some (ODict d) →
  d !! "code" = Some v →
  match v with VNone | VBool _ | VInt _ | VFloat _ => True | _ => False end →
  detect_issues_tool h s = (h, Raises).
Proof.
  intros Hs Hcode Hv. unfold detect_issues_tool. rewrite Hs, Hcode. simpl.
  by destruct v.
Qed.

(** X18. A run that starts at [detect_issues_tool] with an initial state
    whose ["code"] is [None], a Boolean or a number fails at the first
    step with the node's exception: nothing is logged or stored, and the
    store only gains the copy of the initial state. *)
Theorem detect_issues_run_raises
    self h rid gid init max_steps graph d0 v :
  graphs self !! gid = Some graph →
  tool_registry self !! start_node graph = Some detect_issues_tool →
  h !! init = Some (ODict d0) →
  d0 !! "code" = Some v →
  match v with VNone | VBool _ | VInt _ | VFloat _ => True | _ => False end →
  0 < max_steps →
  run_graph self h rid gid init max_steps
  = (self, <[alloc h := ODict d0]> h, Raise NodeError).
Proof.
  intros Hg Hreg Hi Hcode Hv Hmax.
  apply (run_graph_Throw self h rid gid init max_steps graph d0 Hg Hi 0
           (entry_frame graph rid gid h d0)).
  - constructor.
  - apply loop_cond_true. simpl. split; [done|lia].
  - unfold loop_body. simpl. rewrite Hreg.
    rewrite (detect_issues_tool_raises _ _ d0 v); [done| |done..].
    apply lookup_insert_eq.
Qed.

Lemma detect_issues_run_raises_witness :
  run_graph MoreExamples.detect_engine
    {[ 1%positive := ODict {["code" := VNone]} ]} "run-1" "graph-1"
    1%positive 100
  = (MoreExamples.detect_engine,
     <[alloc {[ 1%positive := ODict {["code" := VNone]} ]}
         := ODict {["code" := VNone]}]>
       {[ 1%positive := ODict {["code" := VNone]} ]},
     Raise NodeError).
Proof.
  apply (detect_issues_run_raises MoreExamples.detect_engine
           {[ 1%positive := ODict {["code" := VNone]} ]} "run-1" "graph-1"
           1%positive 100
           {| graph_id := "graph-1"; nodes := ["detect_issues"];
              edges := {["detect_issues" := None]};
              start_node := "detect_issues" |}
           {["code" := VNone]} VNone).
  - vm_compute; reflexivity.
  - reflexivity.
  - vm_compute; reflexivity.
  - vm_compute; reflexivity.
  - exact I.
  - lia.
Defined.

(** [detect_issues_tool] allocates, and spares every mapping it is not
    handed. *)
Lemma detect_issues_tool_spares l0 : tool_spares l0 detect_issues_tool.
Proof.
  intros h s Hl0 Hne. unfold detect_issues_tool.
  destruct (h !! s) as [[d|]|] eqn:Hs; simpl; [|done..].
  repeat match goal with
         | |- context [match py_in ?a ?b ?c with _ => _ end] =>
             destruct (py_in a b c)
         end; simpl; try done.
  split; [|congruence].
  rewrite lookup_insert_ne by done.
  rewrite lookup_insert_ne by (by apply alloc_ne). done.
Qed.

Lemma run_graph_keeps_initial_state_alloc_witness :
  MoreExamples.detect_run.1.2 !! 1%positive
  = MoreExamples.code_state !! 1%positive.
Proof.
  apply (run_graph_keeps_initial_state_alloc MoreExamples.detect_engine
           MoreExamples.code_state "run-1" "graph-1" 1%positive 100
           MoreExamples.detect_run.1.1 MoreExamples.detect_run.1.2
           MoreExamples.detect_run.2).
  - intros n t Ht. simpl in Ht.
    apply lookup_insert_Some in Ht as [[_ <-]|[_ Ht]];
      [apply detect_issues_tool_spares|by rewrite lookup_empty in Ht].
  - apply triple_eta.
Defined.
